(** * GigErn backend: the gig lifecycle routes over their Mongoose models

    A shallow embedding of [src/models/Gig.js], [src/models/Payment.js],
    [src/models/Notification.js] and of the route handlers of the gigs
    router ([src/unnamed/part_003]).

    Conventions of the embedding:
    - a JavaScript [Number] is a rational [Q] (exact arithmetic, no NaN);
    - a [Date] is its epoch time in milliseconds, a [Z];
    - an [ObjectId] is a natural number [N]; route parameters are taken as
      the ObjectId they denote (the canonical form the API hands out);
    - a collection is a finite map from [_id] to document ([gmap]), or a
      list where documents are only ever appended;
    - a handler is a function from the database and the request to the new
      database and the HTTP response; it is the callback of the route, run
      after the [auth] and [authorize] middleware have set [req.user];
      the [catch] of its [try] is the branch that answers 500. *)

From Stdlib Require Import ZArith QArith String List Bool Lia.
From stdpp Require Import base option list gmap strings sorting.
Import ListNotations.

Local Open Scope string_scope.
Local Open Scope nat_scope.

Definition ObjectId := N.
Definition Date := Z.

(** ** HTTP responses *)

Record Response := { statusCode : nat; message : string }.

Definition json (c : nat) (m : string) : Response :=
  {| statusCode := c; message := m |}.

(** The error kinds of the specification, read off the status code and the
    message the handlers send. *)
Inductive Outcome :=
| Success
| ValidationError
| NotFound
| Forbidden
| InvalidTransition
| DuplicateApplication
| ApplicationLimitReached
| InternalFailure.

Definition outcome (r : Response) : Outcome :=
  match statusCode r with
  | 200 | 201 => Success
  | 403 => Forbidden
  | 404 => NotFound
  | 400 =>
      if String.eqb (message r) "Validation errors" then ValidationError
      else if String.eqb (message r) "You have already applied for this gig"
      then DuplicateApplication
      else if String.eqb (message r) "Maximum applications reached for this gig"
      then ApplicationLimitReached
      else InvalidTransition
  | _ => InternalFailure
  end.

(** ** Option helpers for schema paths that may be undefined *)

Definition present {A} (o : option A) : bool :=
  match o with Some _ => true | None => false end.

Definition numEq (a b : option Q) : bool :=
  match a, b with
  | Some x, Some y => Qeq_bool x y
  | None, None => true
  | _, _ => false
  end.

(** ** models/Gig.js *)

Module Gig.

Inductive Status := open | assigned | in_progress | completed | cancelled.

Inductive AppStatus := pending | accepted | rejected.

#[global] Instance Status_eq_dec : EqDecision Status.
Proof. solve_decision. Defined.

#[global] Instance AppStatus_eq_dec : EqDecision AppStatus.
Proof. solve_decision. Defined.

(** An entry of the [applications] sub-document array.  Mongoose gives
    every pushed sub-document an [_id] of its own. *)
Record Application := {
  app_id : ObjectId;
  app_worker : ObjectId;
  appliedAt : Date;
  app_message : string;
  app_status : AppStatus
}.

Definition setAppStatus (s : AppStatus) (a : Application) : Application :=
  {| app_id := app_id a; app_worker := app_worker a;
     appliedAt := appliedAt a; app_message := app_message a;
     app_status := s |}.

Record Location := {
  address : string;
  city : string;
  state : string;
  pincode : string
}.

(** The document.  [totalAmount] is the one required path that the
    routes can leave undefined on a new document, hence the option.
    Schema paths no route reads or writes (paymentStatus, requirements,
    skills, reviews, cancelledAt, cancellationReason, isUrgent) are left
    out. *)
Record t := {
  _id : ObjectId;
  title : string;
  description : string;
  category : string;
  store : ObjectId;
  worker : option ObjectId;
  location : Location;
  startTime : Date;
  endTime : Date;
  duration : Q;
  hourlyRate : Q;
  totalAmount : option Q;
  status : Status;
  applications : list Application;
  assignedAt : option Date;
  startedAt : option Date;
  completedAt : option Date;
  maxApplications : Q;
  views : Q
}.

Definition categories : list string :=
  ["retail"; "delivery"; "warehouse"; "customer-service"; "other"].

(** The paths whose modification the handlers and hooks can cause. *)
Inductive Path :=
| p_worker | p_duration | p_hourlyRate | p_totalAmount | p_status
| p_applications | p_assignedAt | p_startedAt | p_completedAt
| p_maxApplications | p_views.

#[global] Instance Path_eq_dec : EqDecision Path.
Proof. solve_decision. Defined.

(** A Mongoose document in a handler: the values, whether it was built
    with [new Gig(...)] and not saved yet, and the paths marked
    modified since it was loaded or last saved. *)
Record Doc := { val : t; isNew : bool; modifiedPaths : list Path }.

Definition isModified (p : Path) (d : Doc) : bool :=
  bool_decide (p ∈ modifiedPaths d).

Definition mark (p : Path) (d : Doc) (v : t) : Doc :=
  {| val := v; isNew := isNew d;
     modifiedPaths :=
       if isModified p d then modifiedPaths d else p :: modifiedPaths d |}.

(** Field updates, one per path a handler or hook assigns. *)

Definition set_worker (x : option ObjectId) (g : t) : t :=
  {| _id := _id g; title := title g; description := description g;
     category := category g; store := store g; worker := x;
     location := location g; startTime := startTime g;
     endTime := endTime g; duration := duration g;
     hourlyRate := hourlyRate g; totalAmount := totalAmount g;
     status := status g; applications := applications g;
     assignedAt := assignedAt g; startedAt := startedAt g;
     completedAt := completedAt g;
     maxApplications := maxApplications g; views := views g |}.

Definition set_duration (x : Q) (g : t) : t :=
  {| _id := _id g; title := title g; description := description g;
     category := category g; store := store g; worker := worker g;
     location := location g; startTime := startTime g;
     endTime := endTime g; duration := x; hourlyRate := hourlyRate g;
     totalAmount := totalAmount g; status := status g;
     applications := applications g; assignedAt := assignedAt g;
     startedAt := startedAt g; completedAt := completedAt g;
     maxApplications := maxApplications g; views := views g |}.

Definition set_hourlyRate (x : Q) (g : t) : t :=
  {| _id := _id g; title := title g; description := description g;
     category := category g; store := store g; worker := worker g;
     location := location g; startTime := startTime g;
     endTime := endTime g; duration := duration g; hourlyRate := x;
     totalAmount := totalAmount g; status := status g;
     applications := applications g; assignedAt := assignedAt g;
     startedAt := startedAt g; completedAt := completedAt g;
     maxApplications := maxApplications g; views := views g |}.

Definition set_totalAmount (x : option Q) (g : t) : t :=
  {| _id := _id g; title := title g; description := description g;
     category := category g; store := store g; worker := worker g;
     location := location g; startTime := startTime g;
     endTime := endTime g; duration := duration g;
     hourlyRate := hourlyRate g; totalAmount := x;
     status := status g; applications := applications g;
     assignedAt := assignedAt g; startedAt := startedAt g;
     completedAt := completedAt g;
     maxApplications := maxApplications g; views := views g |}.

Definition set_status (x : Status) (g : t) : t :=
  {| _id := _id g; title := title g; description := description g;
     category := category g; store := store g; worker := worker g;
     location := location g; startTime := startTime g;
     endTime := endTime g; duration := duration g;
     hourlyRate := hourlyRate g; totalAmount := totalAmount g;
     status := x; applications := applications g;
     assignedAt := assignedAt g; startedAt := startedAt g;
     completedAt := completedAt g;
     maxApplications := maxApplications g; views := views g |}.

Definition set_applications (x : list Application) (g : t) : t :=
  {| _id := _id g; title := title g; description := description g;
     category := category g; store := store g; worker := worker g;
     location := location g; startTime := startTime g;
     endTime := endTime g; duration := duration g;
     hourlyRate := hourlyRate g; totalAmount := totalAmount g;
     status := status g; applications := x;
     assignedAt := assignedAt g; startedAt := startedAt g;
     completedAt := completedAt g;
     maxApplications := maxApplications g; views := views g |}.

Definition set_assignedAt (x : option Date) (g : t) : t :=
  {| _id := _id g; title := title g; description := description g;
     category := category g; store := store g; worker := worker g;
     location := location g; startTime := startTime g;
     endTime := endTime g; duration := duration g;
     hourlyRate := hourlyRate g; totalAmount := totalAmount g;
     status := status g; applications := applications g;
     assignedAt := x; startedAt := startedAt g;
     completedAt := completedAt g;
     maxApplications := maxApplications g; views := views g |}.

Definition set_startedAt (x : option Date) (g : t) : t :=
  {| _id := _id g; title := title g; description := description g;
     category := category g; store := store g; worker := worker g;
     location := location g; startTime := startTime g;
     endTime := endTime g; duration := duration g;
     hourlyRate := hourlyRate g; totalAmount := totalAmount g;
     status := status g; applications := applications g;
     assignedAt := assignedAt g; startedAt := x;
     completedAt := completedAt g;
     maxApplications := maxApplications g; views := views g |}.

Definition set_completedAt (x : option Date) (g : t) : t :=
  {| _id := _id g; title := title g; description := description g;
     category := category g; store := store g; worker := worker g;
     location := location g; startTime := startTime g;
     endTime := endTime g; duration := duration g;
     hourlyRate := hourlyRate g; totalAmount := totalAmount g;
     status := status g; applications := applications g;
     assignedAt := assignedAt g; startedAt := startedAt g;
     completedAt := x; maxApplications := maxApplications g;
     views := views g |}.

Definition set_views (x : Q) (g : t) : t :=
  {| _id := _id g; title := title g; description := description g;
     category := category g; store := store g; worker := worker g;
     location := location g; startTime := startTime g;
     endTime := endTime g; duration := duration g;
     hourlyRate := hourlyRate g; totalAmount := totalAmount g;
     status := status g; applications := applications g;
     assignedAt := assignedAt g; startedAt := startedAt g;
     completedAt := completedAt g;
     maxApplications := maxApplications g; views := x |}.

(** Assignment to a path of a document, [doc.path = x].  Mongoose marks
    the path modified only when the value differs from the current one. *)

Definition assign_worker (x : option ObjectId) (d : Doc) : Doc :=
  if decide (worker (val d) = x) then d
  else mark p_worker d (set_worker x (val d)).

Definition assign_status (x : Status) (d : Doc) : Doc :=
  if decide (status (val d) = x) then d
  else mark p_status d (set_status x (val d)).

Definition assign_assignedAt (x : option Date) (d : Doc) : Doc :=
  if decide (assignedAt (val d) = x) then d
  else mark p_assignedAt d (set_assignedAt x (val d)).

Definition assign_startedAt (x : option Date) (d : Doc) : Doc :=
  if decide (startedAt (val d) = x) then d
  else mark p_startedAt d (set_startedAt x (val d)).

Definition assign_completedAt (x : option Date) (d : Doc) : Doc :=
  if decide (completedAt (val d) = x) then d
  else mark p_completedAt d (set_completedAt x (val d)).

Definition assign_applications (x : list Application) (d : Doc) : Doc :=
  mark p_applications d (set_applications x (val d)).

(** Numbers compare by value; the stored representative is replaced by
    the assigned one either way. *)
Definition assign_hourlyRate (x : Q) (d : Doc) : Doc :=
  if Qeq_bool (hourlyRate (val d)) x
  then {| val := set_hourlyRate x (val d); isNew := isNew d;
          modifiedPaths := modifiedPaths d |}
  else mark p_hourlyRate d (set_hourlyRate x (val d)).

Definition assign_duration (x : Q) (d : Doc) : Doc :=
  if Qeq_bool (duration (val d)) x
  then {| val := set_duration x (val d); isNew := isNew d;
          modifiedPaths := modifiedPaths d |}
  else mark p_duration d (set_duration x (val d)).

Definition assign_totalAmount (x : option Q) (d : Doc) : Doc :=
  if numEq (totalAmount (val d)) x
  then {| val := set_totalAmount x (val d); isNew := isNew d;
          modifiedPaths := modifiedPaths d |}
  else mark p_totalAmount d (set_totalAmount x (val d)).

Definition assign_views (x : Q) (d : Doc) : Doc :=
  if Qeq_bool (views (val d)) x
  then {| val := set_views x (val d); isNew := isNew d;
          modifiedPaths := modifiedPaths d |}
  else mark p_views d (set_views x (val d)).

(** [gigSchema.methods.calculateTotalAmount] *)
Definition calculateTotalAmount (d : Doc) : Doc :=
  assign_totalAmount (Some (hourlyRate (val d) * duration (val d))%Q) d.

(** [gigSchema.pre('save', ...)] *)
Definition preSave (d : Doc) : Doc :=
  if isModified p_hourlyRate d || isModified p_duration d
  then calculateTotalAmount d
  else d.

(** The validators the schema declares: [required] (a required String
    must be non-empty), [enum] on category, [min: 0] on hourlyRate. *)
Definition nonEmpty (s : string) : bool := negb (String.eqb s "").

Definition validate (g : t) : bool :=
  nonEmpty (title g) && nonEmpty (description g)
  && bool_decide (category g ∈ categories)
  && nonEmpty (address (location g)) && nonEmpty (city (location g))
  && nonEmpty (state (location g)) && nonEmpty (pincode (location g))
  && Qle_bool 0 (hourlyRate g)
  && present (totalAmount g).

(** What [findById] hands to a handler, and what a document is once
    [save] has resolved. *)
Definition loaded (g : t) : Doc :=
  {| val := g; isNew := false; modifiedPaths := [] |}.

End Gig.

(** ** models/Payment.js *)

Module Payment.

Inductive Status := pending | processing | completed | failed | refunded.

Inductive Method := bank_transfer | upi | wallet.

Record t := {
  gig : ObjectId;
  store : ObjectId;
  worker : option ObjectId;
  amount : option Q;
  platformFee : option Q;
  workerAmount : option Q;
  status : Status;
  paymentMethod : option Method;
  transactionId : option string
}.

Definition nonNegative (o : option Q) : bool :=
  match o with Some x => Qle_bool 0 x | None => false end.

(** [required: true] and [min: 0] of the schema. *)
Definition validate (p : t) : bool :=
  present (worker p)
  && nonNegative (amount p)
  && nonNegative (platformFee p)
  && nonNegative (workerAmount p)
  && present (paymentMethod p).

(** [paymentSchema.pre('save', ...)] on a new document, where a path is
    modified exactly when the constructor was given a value for it. *)
Definition preSave (p : t) : t :=
  match amount p with
  | Some a =>
      let fee := (a * (1 # 10))%Q in
      {| gig := gig p; store := store p; worker := worker p;
         amount := amount p;
         platformFee := Some fee;
         workerAmount := Some (a - fee)%Q;
         status := status p; paymentMethod := paymentMethod p;
         transactionId := transactionId p |}
  | None => p
  end.

End Payment.

(** ** models/Notification.js *)

Module Notification.

Inductive Type_ :=
| gig_assigned | gig_completed | payment_received | application_received
| application_accepted | application_rejected | system.

Record t := {
  recipient : ObjectId;
  type : Type_;
  title : string;
  message : string;
  gigId : ObjectId
}.

End Notification.

(** ** The database and Mongoose's model operations *)

Record DB := {
  gigs : gmap ObjectId Gig.t;
  payments : list Payment.t;
  notifications : list Notification.t
}.

Definition withGigs (m : gmap ObjectId Gig.t) (db : DB) : DB :=
  {| gigs := m; payments := payments db; notifications := notifications db |}.

(** [Gig.findById(id)] *)
Definition findById (id : ObjectId) (db : DB) : option Gig.Doc :=
  Gig.loaded <$> gigs db !! id.

(** [gig.save()].  Mongoose registers document validation as the first
    pre-save hook, so the schema validators see the document before the
    schema's own [pre('save')] hook has run; a validation error rejects
    the promise and nothing is written.  A new document is inserted
    (a duplicate [_id] is a write error), a loaded one is updated. *)
Definition saveGig (d : Gig.Doc) (db : DB) : option (Gig.Doc * DB) :=
  if Gig.validate (Gig.val d) then
    let d' := Gig.preSave d in
    let g := Gig.val d' in
    if Gig.isNew d && present (gigs db !! Gig._id g) then None
    else Some (Gig.loaded g, withGigs (<[Gig._id g := g]> (gigs db)) db)
  else None.

(** [payment.save()] on a new document. *)
Definition savePayment (p : Payment.t) (db : DB) : option DB :=
  if Payment.validate p then
    Some {| gigs := gigs db;
            payments := payments db ++ [Payment.preSave p];
            notifications := notifications db |}
  else None.

(** [Notification.create({...})].  Every call in the router passes a
    recipient, a type of the enum, a title and a message, so validation
    cannot fail. *)
Definition createNotification (n : Notification.t) (db : DB) : DB :=
  {| gigs := gigs db; payments := payments db;
     notifications := notifications db ++ [n] |}.

(** ** Requests *)

(** [req.user], as the auth middleware leaves it. *)
Record User := { user_id : ObjectId; userType : string; fullName : string }.

(** What a request draws from its environment: the clock and the
    ObjectId generator. *)
Record Env := { now : Date; newId : ObjectId }.

(** The JSON body of [POST /].  A field is [None] when it is absent; the
    two times are [None] also when the string is not ISO 8601, and the
    rate also when it is not numeric, which the validators treat alike.
    The last four are schema paths the handler's [...req.body] spread
    copies into the new document when the client sends them. *)
Record CreateBody := {
  b_title : option string;
  b_description : option string;
  b_category : option string;
  b_address : option string;
  b_city : option string;
  b_state : option string;
  b_pincode : option string;
  b_startTime : option Date;
  b_endTime : option Date;
  b_hourlyRate : option Q;
  b_totalAmount : option Q;
  b_status : option Gig.Status;
  b_worker : option ObjectId;
  b_maxApplications : option Q
}.

(** *** express-validator chains *)

Definition isSpace (c : Ascii.ascii) : bool :=
  match Ascii.nat_of_ascii c with
  | 9 | 10 | 11 | 12 | 13 | 32 => true
  | _ => false
  end.

Fixpoint ltrim (s : string) : string :=
  match s with
  | EmptyString => EmptyString
  | String c s' => if isSpace c then ltrim s' else s
  end.

Fixpoint rtrim (s : string) : string :=
  match s with
  | EmptyString => EmptyString
  | String c s' =>
      let r := rtrim s' in
      if isSpace c && String.eqb r "" then EmptyString else String c r
  end.

Definition trim (s : string) : string := rtrim (ltrim s).

(** [.notEmpty()]: an absent field counts as the empty string. *)
Definition notEmpty (o : option string) : bool :=
  match o with Some s => Gig.nonEmpty s | None => false end.

(** [.isLength({ min, max })] *)
Definition isLength (lo hi : nat) (s : string) : bool :=
  (lo <=? String.length s) && (String.length s <=? hi).

Definition validTitle (o : option string) : bool :=
  notEmpty o && isLength 5 100 (trim (default "" o)).

Definition validDescription (o : option string) : bool :=
  notEmpty o && isLength 20 1000 (default "" o).

Definition validCategory (o : option string) : bool :=
  match o with
  | Some c => bool_decide (c ∈ Gig.categories)
  | None => false
  end.

(** [.isNumeric()] then [.isFloat({ min: 50 })] *)
Definition validHourlyRate (o : option Q) : bool :=
  match o with Some r => Qle_bool 50 r | None => false end.

Definition createValidators (b : CreateBody) : bool :=
  validTitle (b_title b)
  && validDescription (b_description b)
  && validCategory (b_category b)
  && notEmpty (b_address b)
  && notEmpty (b_city b)
  && notEmpty (b_state b)
  && notEmpty (b_pincode b)
  && present (b_startTime b)
  && present (b_endTime b)
  && validHourlyRate (b_hourlyRate b).

(** ** The route handlers *)

Definition msPerHour : Z := (1000 * 60 * 60)%Z.

(** [new Gig({ ...req.body, store, duration })]: the given paths are set
    and marked modified, the others take the schema defaults. *)
Definition newGig (user : User) (b : CreateBody) (env : Env) : Gig.Doc :=
  let startT := default 0%Z (b_startTime b) in
  let endT := default 0%Z (b_endTime b) in
  {| Gig.val :=
       {| Gig._id := newId env;
          Gig.title := trim (default "" (b_title b));
          Gig.description := default "" (b_description b);
          Gig.category := default "" (b_category b);
          Gig.store := user_id user;
          Gig.worker := b_worker b;
          Gig.location :=
            {| Gig.address := default "" (b_address b);
               Gig.city := default "" (b_city b);
               Gig.state := default "" (b_state b);
               Gig.pincode := default "" (b_pincode b) |};
          Gig.startTime := startT;
          Gig.endTime := endT;
          Gig.duration := (inject_Z (endT - startT) / inject_Z msPerHour)%Q;
          Gig.hourlyRate := default 0%Q (b_hourlyRate b);
          Gig.totalAmount := b_totalAmount b;
          Gig.status := default Gig.open (b_status b);
          Gig.applications := [];
          Gig.assignedAt := None;
          Gig.startedAt := None;
          Gig.completedAt := None;
          Gig.maxApplications := default 10%Q (b_maxApplications b);
          Gig.views := 0%Q |};
     Gig.isNew := true;
     Gig.modifiedPaths :=
       [Gig.p_hourlyRate; Gig.p_duration]
       ++ (if present (b_totalAmount b) then [Gig.p_totalAmount] else [])
       ++ (if present (b_status b) then [Gig.p_status] else [])
       ++ (if present (b_worker b) then [Gig.p_worker] else [])
       ++ (if present (b_maxApplications b)
           then [Gig.p_maxApplications] else []) |}.

(** [POST /] (store only) *)
Definition createGig (db : DB) (user : User) (body : CreateBody) (env : Env)
  : DB * Response :=
  if negb (createValidators body) then (db, json 400 "Validation errors")
  else
    let gig := newGig user body env in
    match saveGig gig db with
    | None => (db, json 500 "Failed to create gig")
    | Some (gig, db1) =>
        let gig := Gig.calculateTotalAmount gig in
        match saveGig gig db1 with
        | None => (db1, json 500 "Failed to create gig")
        | Some (_, db2) => (db2, json 201 "Gig created successfully")
        end
    end.

(** [GET /:id] *)
Definition getGig (db : DB) (id : ObjectId) : DB * Response :=
  match findById id db with
  | None => (db, json 404 "Gig not found")
  | Some gig =>
      let gig := Gig.assign_views (Gig.views (Gig.val gig) + 1)%Q gig in
      match saveGig gig db with
      | None => (db, json 500 "Failed to get gig")
      | Some (_, db1) => (db1, json 200 "")
      end
  end.

(** [gig.applications.find(app => app.worker.toString() === req.user._id.toString())] *)
Definition existingApplication (user : User) (apps : list Gig.Application)
  : option Gig.Application :=
  snd <$> list_find (λ app, Gig.app_worker app = user_id user) apps.

(** [POST /:id/apply] (worker only); [message] is [req.body.message]. *)
Definition applyForGig (db : DB) (id : ObjectId) (user : User)
    (message : option string) (env : Env) : DB * Response :=
  let message := trim <$> message in
  if negb (isLength 0 500 (default "" message))
  then (db, json 400 "Validation errors")
  else
    match findById id db with
    | None => (db, json 404 "Gig not found")
    | Some gig =>
        let g := Gig.val gig in
        if negb (bool_decide (Gig.status g = Gig.open))
        then (db, json 400 "Gig is not open for applications")
        else if present (existingApplication user (Gig.applications g))
        then (db, json 400 "You have already applied for this gig")
        else if Qle_bool (Gig.maxApplications g)
                  (inject_Z (Z.of_nat (length (Gig.applications g))))
        then (db, json 400 "Maximum applications reached for this gig")
        else
          let gig :=
            Gig.assign_applications
              (Gig.applications g ++
                 [{| Gig.app_id := newId env;
                     Gig.app_worker := user_id user;
                     Gig.appliedAt := now env;
                     Gig.app_message := default "" message;
                     Gig.app_status := Gig.pending |}]) gig in
          match saveGig gig db with
          | None => (db, json 500 "Failed to apply for gig")
          | Some (gig, db1) =>
              let g := Gig.val gig in
              let db2 :=
                createNotification
                  {| Notification.recipient := Gig.store g;
                     Notification.type := Notification.application_received;
                     Notification.title := "New Application Received";
                     Notification.message :=
                       fullName user ++ " has applied for your gig: "
                       ++ Gig.title g;
                     Notification.gigId := Gig._id g |} db1 in
              (db2, json 200 "Application submitted successfully")
          end
    end.

(** [gig.applications.id(applicationId)]: the first sub-document with
    that [_id], together with its position in the array. *)
Definition applicationById (appId : ObjectId) (apps : list Gig.Application)
  : option (nat * Gig.Application) :=
  list_find (λ app, Gig.app_id app = appId) apps.

(** The accept branch on the array: [application.status = 'accepted']
    writes through to the element [application] aliases, then the
    [forEach] rejects every element whose [_id] differs. *)
Definition acceptInArray (appId : ObjectId) (i : nat)
    (application : Gig.Application) (apps : list Gig.Application)
  : list Gig.Application :=
  (λ app, if decide (Gig.app_id app ≠ appId)
          then Gig.setAppStatus Gig.rejected app else app)
    <$> <[i := Gig.setAppStatus Gig.accepted application]> apps.

(** The reject branch: [application.status = 'rejected']. *)
Definition rejectInArray (i : nat) (application : Gig.Application)
    (apps : list Gig.Application) : list Gig.Application :=
  <[i := Gig.setAppStatus Gig.rejected application]> apps.

(** [PUT /:id/applications/:applicationId] (store only); [action] is
    [req.body.action]. *)
Definition resolveApplication (db : DB) (id appId : ObjectId) (user : User)
    (action : string) (env : Env) : DB * Response :=
  if negb (bool_decide (action ∈ ["accept"; "reject"]))
  then (db, json 400 "Validation errors")
  else
    match findById id db with
    | None => (db, json 404 "Gig not found")
    | Some gig =>
        let g := Gig.val gig in
        if negb (bool_decide (Gig.store g = user_id user))
        then (db, json 403 "Not authorized to manage this gig")
        else
          match applicationById appId (Gig.applications g) with
          | None => (db, json 404 "Application not found")
          | Some (i, application) =>
              let '(gig, db0) :=
                if String.eqb action "accept" then
                  let gig :=
                    Gig.assign_worker (Some (Gig.app_worker application)) gig in
                  let gig := Gig.assign_status Gig.assigned gig in
                  let gig := Gig.assign_assignedAt (Some (now env)) gig in
                  let gig :=
                    Gig.assign_applications
                      (acceptInArray appId i application (Gig.applications g))
                      gig in
                  (gig,
                   createNotification
                     {| Notification.recipient := Gig.app_worker application;
                        Notification.type := Notification.application_accepted;
                        Notification.title := "Application Accepted";
                        Notification.message :=
                          "Your application for " ++ Gig.title g
                          ++ " has been accepted!";
                        Notification.gigId := Gig._id g |} db)
                else
                  (Gig.assign_applications
                     (rejectInArray i application (Gig.applications g)) gig,
                   db) in
              match saveGig gig db0 with
              | None => (db0, json 500 "Failed to manage application")
              | Some (_, db1) =>
                  (db1, json 200 ("Application " ++ action ++ "ed successfully"))
              end
          end
    end.

(** [PUT /:id/start] (worker only).  [gig.worker.toString()] on a null
    worker throws a TypeError, which the handler's [catch] turns into the
    500 response. *)
Definition startGig (db : DB) (id : ObjectId) (user : User) (env : Env)
  : DB * Response :=
  match findById id db with
  | None => (db, json 404 "Gig not found")
  | Some gig =>
      match Gig.worker (Gig.val gig) with
      | None => (db, json 500 "Failed to start gig")
      | Some w =>
          if negb (bool_decide (w = user_id user))
          then (db, json 403 "Not authorized to start this gig")
          else if negb (bool_decide (Gig.status (Gig.val gig) = Gig.assigned))
          then (db, json 400 "Gig must be assigned before starting")
          else
            let gig := Gig.assign_status Gig.in_progress gig in
            let gig := Gig.assign_startedAt (Some (now env)) gig in
            match saveGig gig db with
            | None => (db, json 500 "Failed to start gig")
            | Some (_, db1) => (db1, json 200 "Gig started successfully")
            end
      end
  end.

(** [new Payment({ gig, store, worker, amount })]: the other paths take
    the schema defaults, and only [status] has one. *)
Definition newPayment (g : Gig.t) : Payment.t :=
  {| Payment.gig := Gig._id g;
     Payment.store := Gig.store g;
     Payment.worker := Gig.worker g;
     Payment.amount := Gig.totalAmount g;
     Payment.platformFee := None;
     Payment.workerAmount := None;
     Payment.status := Payment.pending;
     Payment.paymentMethod := None;
     Payment.transactionId := None |}.

(** [PUT /:id/complete] (worker only) *)
Definition completeGig (db : DB) (id : ObjectId) (user : User) (env : Env)
  : DB * Response :=
  match findById id db with
  | None => (db, json 404 "Gig not found")
  | Some gig =>
      match Gig.worker (Gig.val gig) with
      | None => (db, json 500 "Failed to complete gig")
      | Some w =>
          if negb (bool_decide (w = user_id user))
          then (db, json 403 "Not authorized to complete this gig")
          else if negb (bool_decide
                          (Gig.status (Gig.val gig) = Gig.in_progress))
          then (db, json 400 "Gig must be in progress to complete")
          else
            let gig := Gig.assign_status Gig.completed gig in
            let gig := Gig.assign_completedAt (Some (now env)) gig in
            match saveGig gig db with
            | None => (db, json 500 "Failed to complete gig")
            | Some (gig, db1) =>
                let g := Gig.val gig in
                match savePayment (newPayment g) db1 with
                | None => (db1, json 500 "Failed to complete gig")
                | Some db2 =>
                    let db3 :=
                      createNotification
                        {| Notification.recipient := Gig.store g;
                           Notification.type := Notification.gig_completed;
                           Notification.title := "Gig Completed";
                           Notification.message :=
                             fullName user ++ " has completed the gig: "
                             ++ Gig.title g;
                           Notification.gigId := Gig._id g |} db2 in
                    (db3, json 200 "Gig completed successfully")
                end
            end
      end
  end.

(** ** A worked scenario

    The store posts a three-hour gig at 100 per hour, workers A, B and C
    apply, the store accepts B, B starts the gig.  The states are obtained
    by running the handlers. *)

Module Sample.

Definition db0 : DB := {| gigs := ∅; payments := []; notifications := [] |}.

Definition shop : User :=
  {| user_id := 1%N; userType := "store"; fullName := "Shop" |}.

Definition workerA : User :=
  {| user_id := 11%N; userType := "worker"; fullName := "A" |}.

Definition workerB : User :=
  {| user_id := 12%N; userType := "worker"; fullName := "B" |}.

Definition workerC : User :=
  {| user_id := 13%N; userType := "worker"; fullName := "C" |}.

Definition at_ (t : Date) (i : ObjectId) : Env := {| now := t; newId := i |}.

(** A body with the documented fields, and the [totalAmount] a client
    has to send for the first [save] to pass validation. *)
Definition bodyWith (startT endT : Date) (st : option Gig.Status)
    (maxApps : option Q) : CreateBody :=
  {| b_title := Some "Shelf stacking";
     b_description := Some "Stack the shelves of the shop.";
     b_category := Some "retail";
     b_address := Some "1 Main St";
     b_city := Some "Pune";
     b_state := Some "MH";
     b_pincode := Some "411001";
     b_startTime := Some startT;
     b_endTime := Some endT;
     b_hourlyRate := Some (100 # 1);
     b_totalAmount := Some (0 # 1);
     b_status := st;
     b_worker := None;
     b_maxApplications := maxApps |}.

Definition body (startT endT : Date) (st : option Gig.Status) : CreateBody :=
  bodyWith startT endT st None.

Definition gigId : ObjectId := 100%N.

Definition threeHours : Z := (3 * msPerHour)%Z.

Definition dbOpen : DB :=
  fst (createGig db0 shop (body 0%Z threeHours None) (at_ 5%Z gigId)).

Definition dbA : DB :=
  fst (applyForGig dbOpen gigId workerA None (at_ 6%Z 201%N)).

Definition dbAB : DB :=
  fst (applyForGig dbA gigId workerB (Some " hi ") (at_ 7%Z 202%N)).

Definition dbABC : DB :=
  fst (applyForGig dbAB gigId workerC None (at_ 8%Z 203%N)).

Definition dbAssigned : DB :=
  fst (resolveApplication dbABC gigId 202%N shop "accept" (at_ 9%Z 0%N)).

Definition dbStarted : DB :=
  fst (startGig dbAssigned gigId workerB (at_ 10%Z 0%N)).

Definition dbCompleted : DB :=
  fst (completeGig dbStarted gigId workerB (at_ 11%Z 0%N)).

(** A gig that takes a single application, and worker A's. *)
Definition dbFull : DB :=
  fst (applyForGig
         (fst (createGig db0 shop (bodyWith 0%Z threeHours None (Some (1 # 1)))
                 (at_ 5%Z gigId)))
         gigId workerA None (at_ 6%Z 201%N)).

(** A request after the scenario. *)
Definition later : Env := at_ 12%Z 300%N.

(** The stored gig of a state, for statements about it. *)
Definition gigOf (db : DB) : Gig.t :=
  default (Gig.val (newGig shop (body 0%Z 0%Z None) (at_ 0%Z 0%N)))
          (gigs db !! gigId).

End Sample.

(** ** Counting applications by status *)


(** The invariant the data model states for [worker] and [status]. *)
Definition workerMatchesStatus (g : Gig.t) : Prop :=
  (Gig.worker g ≠ None) ↔
  (Gig.status g = Gig.assigned ∨ Gig.status g = Gig.in_progress
   ∨ Gig.status g = Gig.completed).

(** The derived-field invariant of the data model. *)
Definition totalAmountDerived (g : Gig.t) : Prop :=
  Gig.totalAmount g = Some (Gig.hourlyRate g * Gig.duration g)%Q.

(** A document on which neither creation nor an assignment to
    hourlyRate or duration is pending: the pre-save hook leaves it. *)
Definition settled (d : Gig.Doc) : Prop :=
  Gig.isNew d = false
  ∧ Gig.isModified Gig.p_hourlyRate d = false
  ∧ Gig.isModified Gig.p_duration d = false.


(** The gig the accept branch leaves in the document. *)
Definition acceptedGig (appId : ObjectId) (i : nat)
    (application : Gig.Application) (t : Date) (g : Gig.t) : Gig.t :=
  Gig.set_applications
    (acceptInArray appId i application (Gig.applications g))
    (Gig.set_assignedAt (Some t)
       (Gig.set_status Gig.assigned
          (Gig.set_worker (Some (Gig.app_worker application)) g))).

Definition acceptedNotification (application : Gig.Application) (g : Gig.t)
  : Notification.t :=
  {| Notification.recipient := Gig.app_worker application;
     Notification.type := Notification.application_accepted;
     Notification.title := "Application Accepted";
     Notification.message :=
       "Your application for " ++ Gig.title g ++ " has been accepted!";
     Notification.gigId := Gig._id g |}.

(** ** The router *)

(** The routes of the gigs router that write to the database, with what
    each takes from the request. *)
Inductive Request :=
| PostGig (user : User) (body : CreateBody)
| GetGig (id : ObjectId)
| PostApply (id : ObjectId) (user : User) (message : option string)
| PutApplication (id appId : ObjectId) (user : User) (action : string)
| PutStart (id : ObjectId) (user : User)
| PutComplete (id : ObjectId) (user : User).

Definition route (db : DB) (req : Request) (env : Env) : DB * Response :=
  match req with
  | PostGig user body => createGig db user body env
  | GetGig id => getGig db id
  | PostApply id user message => applyForGig db id user message env
  | PutApplication id appId user action =>
      resolveApplication db id appId user action env
  | PutStart id user => startGig db id user env
  | PutComplete id user => completeGig db id user env
  end.

(** The gig a request addresses, if it addresses one. *)
Definition target (req : Request) : option ObjectId :=
  match req with
  | PostGig _ _ => None
  | GetGig id | PostApply id _ _ | PutApplication id _ _ _
  | PutStart id _ | PutComplete id _ => Some id
  end.

(** ** The list routes *)

(** The string a status has in the database and in a query. *)
Definition statusName (s : Gig.Status) : string :=
  match s with
  | Gig.open => "open"
  | Gig.assigned => "assigned"
  | Gig.in_progress => "in-progress"
  | Gig.completed => "completed"
  | Gig.cancelled => "cancelled"
  end.

(** [req.query] of [GET /] and [GET /my/gigs].  The page and the limit
    are positive integers when given. *)
Record ListQuery := {
  q_page : option positive;
  q_limit : option positive;
  q_category : option string;
  q_city : option string;
  q_status : option string;
  q_sortBy : option string;
  q_sortOrder : option string
}.

Record Pagination := { current : nat; total : nat; count : nat }.

Record Listing := { items : list Gig.t; pagination : Pagination }.

(** [if (x) filter.path = x]: an absent or empty parameter adds no
    condition. *)
Definition optionalEq (param : option string) (value : string) : bool :=
  match param with
  | Some p => if Gig.nonEmpty p then String.eqb value p else true
  | None => true
  end.

(** The filter of [GET /]: [{ status }], with category and city when the
    query names them; the status defaults to open. *)
Definition listFilter (q : ListQuery) (g : Gig.t) : bool :=
  String.eqb (statusName (Gig.status g)) (default "open" (q_status q))
  && optionalEq (q_category q) (Gig.category g)
  && optionalEq (q_city q) (Gig.city (Gig.location g)).

(** The filter of [GET /my/gigs]: the store's gigs for a store, the gigs
    assigned to the user for anyone else, with the status when given. *)
Definition myFilter (user : User) (q : ListQuery) (g : Gig.t) : bool :=
  (if String.eqb (userType user) "store"
   then bool_decide (Gig.store g = user_id user)
   else bool_decide (Gig.worker g = Some (user_id user)))
  && optionalEq (q_status q) (statusName (Gig.status g)).

(** [Math.ceil(total / limit)] on naturals, for a positive limit. *)
Definition ceilDiv (n limit : nat) : nat := (n + (limit - 1)) / limit.

Section Queries.

(** [before path a b]: document [a] does not come after [b] in the
    ascending order of the named path. *)
Variable before : string → Gig.t → Gig.t → bool.

(** [.sort({ [path]: direction })] *)
Definition sortDocs (path : string) (descending : bool) (l : list Gig.t)
  : list Gig.t :=
  merge_sort
    (λ a b, Is_true (if descending then before path b a else before path a b))
    l.

(** [Gig.find(filter)] *)
Definition find (f : Gig.t → bool) (db : DB) : list Gig.t :=
  filter (λ g, Is_true (f g)) (snd <$> map_to_list (gigs db)).

(** [Gig.countDocuments(filter)] *)
Definition countDocuments (f : Gig.t → bool) (db : DB) : nat :=
  length (find f db).

(** [Gig.find(filter).sort(...).skip(skip).limit(limit)] and the
    pagination block, as both list routes build them. *)
Definition listing (f : Gig.t → bool) (path : string) (descending : bool)
    (page limit : positive) (db : DB) : Listing :=
  let skip := (Pos.to_nat page - 1) * Pos.to_nat limit in
  let gigs :=
    take (Pos.to_nat limit) (drop skip (sortDocs path descending (find f db))) in
  let total := countDocuments f db in
  {| items := gigs;
     pagination :=
       {| current := Pos.to_nat page;
          total := ceilDiv total (Pos.to_nat limit);
          count := total |} |}.

(** [GET /] *)
Definition listGigs (db : DB) (q : ListQuery) : Listing :=
  listing (listFilter q)
    (default "createdAt" (q_sortBy q))
    (String.eqb (default "desc" (q_sortOrder q)) "desc")
    (default 1%positive (q_page q)) (default 10%positive (q_limit q)) db.

(** [GET /my/gigs] *)
Definition myGigs (db : DB) (user : User) (q : ListQuery) : Listing :=
  listing (myFilter user q) "createdAt" true
    (default 1%positive (q_page q)) (default 10%positive (q_limit q)) db.

End Queries.

(** ** utils/helpers.js *)

(** A [Date] built from a request value: [None] is the Invalid Date,
    whose time value is NaN, so every comparison with it is false. *)
Definition JsDate := option Z.

Definition dateLe (a b : JsDate) : bool :=
  match a, b with
  | Some x, Some y => (x <=? y)%Z
  | _, _ => false
  end.

(** A number that may be NaN ([None]); [<] and [>] with NaN are false. *)
Definition numLt (a : option Q) (b : Q) : bool :=
  match a with Some x => negb (Qle_bool b x) | None => false end.

Definition numGt (a : option Q) (b : Q) : bool :=
  match a with Some x => negb (Qle_bool x b) | None => false end.

(** [calculateGigDuration] *)
Definition calculateGigDuration (startTime endTime : JsDate) : option Q :=
  match startTime, endTime with
  | Some s, Some e => Some (inject_Z (e - s) / inject_Z msPerHour)%Q
  | _, _ => None
  end.

(** [isValidGigTime], with the clock read by [new Date()] as argument. *)
Definition isValidGigTime (startTime endTime : JsDate) (now : Date) : bool :=
  if dateLe endTime startTime then false
  else if dateLe startTime (Some now) then false
  else
    let duration := calculateGigDuration startTime endTime in
    if numLt duration 1 || numGt duration 24 then false else true.

(** [getPagination] *)
Definition getPagination (page limit : positive) : nat * nat :=
  ((Pos.to_nat page - 1) * Pos.to_nat limit, Pos.to_nat limit).

Record PageInfo := {
  pi_current : nat;
  pi_total : nat;
  pi_count : nat;
  hasNext : bool;
  hasPrev : bool
}.

(** The pagination block of [formatPaginationResponse]. *)
Definition formatPaginationResponse (page limit : positive) (total : nat)
  : PageInfo :=
  {| pi_current := Pos.to_nat page;
     pi_total := ceilDiv total (Pos.to_nat limit);
     pi_count := total;
     hasNext := Pos.to_nat page * Pos.to_nat limit <? total;
     hasPrev := 1 <? Pos.to_nat page |}.

Definition isDigit (c : Ascii.ascii) : bool :=
  (48 <=? Ascii.nat_of_ascii c) && (Ascii.nat_of_ascii c <=? 57).

(** [formatPhoneNumber]: [phoneNumber.replace(/\D/g, '')] *)
Fixpoint formatPhoneNumber (s : string) : string :=
  match s with
  | EmptyString => EmptyString
  | String c s' =>
      if isDigit c then String c (formatPhoneNumber s')
      else formatPhoneNumber s'
  end.

(** ** models/User.js: the one-time password *)

Module Otp.

(** [user.otp]; [None] is the state in which [otp.code] is undefined. *)
Record t := { code : string; expiresAt : Date; attempts : nat }.

Record Verification := { valid : bool; message : string }.

(** [userSchema.methods.generateOTP]: the new [otp] and the code
    returned. *)
Definition generateOTP (now : Date) : option t * string :=
  let otp := "123456" in
  (Some {| code := otp; expiresAt := (now + 10 * 60 * 1000)%Z;
           attempts := 0 |},
   otp).

(** [userSchema.methods.verifyOTP]: the [otp] left on the user and the
    verdict. *)
Definition verifyOTP (otp : option t) (candidateOTP : string) (now : Date)
  : option t * Verification :=
  match otp with
  | None => (otp, {| valid := false; message := "No OTP generated" |})
  | Some o =>
      if negb (Gig.nonEmpty (code o))
      then (otp, {| valid := false; message := "No OTP generated" |})
      else if (expiresAt o <? now)%Z
      then (otp, {| valid := false; message := "OTP expired" |})
      else if 3 <=? attempts o
      then (otp, {| valid := false; message := "Too many attempts" |})
      else
        let o' := {| code := code o; expiresAt := expiresAt o;
                     attempts := attempts o + 1 |} in
        if negb (String.eqb (code o) candidateOTP)
        then (Some o', {| valid := false; message := "Invalid OTP" |})
        else (None, {| valid := true; message := "OTP verified successfully" |})
  end.

End Otp.

(** ** What a request may change of a stored gig *)

(** The paths of a gig that are fixed at creation. *)
Definition core (g : Gig.t) :=
  (Gig._id g, Gig.title g, Gig.description g, Gig.category g, Gig.store g,
   Gig.location g, Gig.startTime g, Gig.endTime g, Gig.duration g,
   Gig.hourlyRate g, Gig.totalAmount g, Gig.maxApplications g).

(** What identifies an application, apart from its status. *)
Definition appIdentity (a : Gig.Application) :=
  (Gig.app_id a, Gig.app_worker a, Gig.appliedAt a, Gig.app_message a).

Definition workersOf (g : Gig.t) : list ObjectId :=
  Gig.app_worker <$> Gig.applications g.

(** One request's effect on a gig: the core is kept, applications are
    kept up to their status and at most appended to, and no worker gets
    a second application. *)
Definition gigStep (g g' : Gig.t) : Prop :=
  core g' = core g
  ∧ (appIdentity <$> Gig.applications g)
      `prefix_of` (appIdentity <$> Gig.applications g')
  ∧ (NoDup (workersOf g) → NoDup (workersOf g')).

(** The shape of every handler's answer on the gig it addresses: the
    collection is as before, or the gig is replaced by a step of it. *)
Definition stepped (db db' : DB) (id : ObjectId) (g : Gig.t) : Prop :=
  gigs db' = gigs db
  ∨ ∃ g', gigs db' = <[id := g']> (gigs db) ∧ gigStep g g'.

(** The collection is keyed by [_id]. *)
Definition keyed (db : DB) : Prop :=
  ∀ id g, gigs db !! id = Some g → Gig._id g = id.

(** What one request makes of the collection: nothing, a step of one
    stored gig, or one new gig under a free [_id], without applications
    and with its total amount derived. *)
Definition collectionStep (env : Env) (db db' : DB) : Prop :=
  gigs db' = gigs db
  ∨ (∃ id g g', gigs db !! id = Some g
                ∧ gigs db' = <[id := g']> (gigs db) ∧ gigStep g g')
  ∨ (∃ g', gigs db !! newId env = None
           ∧ gigs db' = <[newId env := g']> (gigs db)
           ∧ Gig._id g' = newId env
           ∧ Gig.applications g' = [] ∧ totalAmountDerived g').

(** What holds of every gig of every database the router builds from
    the empty one: it sits under its [_id], no worker has two
    applications on it, and its total amount is derived. *)
Definition sound (db : DB) : Prop :=
  ∀ id g, gigs db !! id = Some g →
    Gig._id g = id ∧ NoDup (workersOf g) ∧ totalAmountDerived g.

(** The application [applyForGig] pushes. *)
Definition newApplication (user : User) (message : option string) (env : Env)
  : Gig.Application :=
  {| Gig.app_id := newId env;
     Gig.app_worker := user_id user;
     Gig.appliedAt := now env;
     Gig.app_message := default "" (trim <$> message);
     Gig.app_status := Gig.pending |}.

(** A run of the router from a database. *)
Fixpoint run (db : DB) (reqs : list (Request * Env)) : DB :=
  match reqs with
  | [] => db
  | (req, env) :: rest => run (fst (route db req env)) rest
  end.

(** The worked scenario as a run of the router, up to the start of the
    gig. *)
Definition script : list (Request * Env) :=
  [(PostGig Sample.shop (Sample.body 0%Z Sample.threeHours None),
    Sample.at_ 5%Z Sample.gigId);
   (PostApply Sample.gigId Sample.workerA None, Sample.at_ 6%Z 201%N);
   (PostApply Sample.gigId Sample.workerB (Some " hi "), Sample.at_ 7%Z 202%N);
   (PostApply Sample.gigId Sample.workerC None, Sample.at_ 8%Z 203%N);
   (PutApplication Sample.gigId 202%N Sample.shop "accept",
    Sample.at_ 9%Z 0%N);
   (PutStart Sample.gigId Sample.workerB, Sample.at_ 10%Z 0%N)].

(** An order to run the list routes with: by start time on every
    path. *)
Definition byStart (path : string) (a b : Gig.t) : bool :=
  (Gig.startTime a <=? Gig.startTime b)%Z.

(** A query with every parameter left out but the page and the limit. *)
Definition plainQuery (page limit : option positive) : ListQuery :=
  {| q_page := page; q_limit := limit; q_category := None; q_city := None;
     q_status := None; q_sortBy := None; q_sortOrder := None |}.

(** * Properties *)

(** ** Model operations *)

Lemma findById_lookup db id g :
  gigs db !! id = Some g → findById id db = Some (Gig.loaded g).
Proof. intros H. unfold findById. by rewrite H. Qed.

Lemma saveGig_inv d db d' db' :
  saveGig d db = Some (d', db') →
  Gig.validate (Gig.val d) = true
  ∧ d' = Gig.loaded (Gig.val (Gig.preSave d))
  ∧ db' = withGigs (<[Gig._id (Gig.val (Gig.preSave d)) :=
                       Gig.val (Gig.preSave d)]> (gigs db)) db.
Proof.
  unfold saveGig. destruct (Gig.validate (Gig.val d)); [|discriminate].
  destruct (Gig.isNew d && _); [discriminate|].
  intros [= <- <-]. auto.
Qed.

(** ** Documents between load and save *)

Lemma val_assign_worker x d :
  Gig.val (Gig.assign_worker x d) = Gig.set_worker x (Gig.val d).
Proof.
  unfold Gig.assign_worker. destruct (decide _) as [e|]; [|done].
  destruct d as [[] ? ?]. simpl in *. by subst.
Qed.

Lemma val_assign_status x d :
  Gig.val (Gig.assign_status x d) = Gig.set_status x (Gig.val d).
Proof.
  unfold Gig.assign_status. destruct (decide _) as [e|]; [|done].
  destruct d as [[] ? ?]. simpl in *. by subst.
Qed.

Lemma val_assign_assignedAt x d :
  Gig.val (Gig.assign_assignedAt x d) = Gig.set_assignedAt x (Gig.val d).
Proof.
  unfold Gig.assign_assignedAt. destruct (decide _) as [e|]; [|done].
  destruct d as [[] ? ?]. simpl in *. by subst.
Qed.

Lemma val_assign_startedAt x d :
  Gig.val (Gig.assign_startedAt x d) = Gig.set_startedAt x (Gig.val d).
Proof.
  unfold Gig.assign_startedAt. destruct (decide _) as [e|]; [|done].
  destruct d as [[] ? ?]. simpl in *. by subst.
Qed.

Lemma val_assign_completedAt x d :
  Gig.val (Gig.assign_completedAt x d) = Gig.set_completedAt x (Gig.val d).
Proof.
  unfold Gig.assign_completedAt. destruct (decide _) as [e|]; [|done].
  destruct d as [[] ? ?]. simpl in *. by subst.
Qed.

Lemma val_assign_applications x d :
  Gig.val (Gig.assign_applications x d) = Gig.set_applications x (Gig.val d).
Proof. reflexivity. Qed.

Lemma val_assign_hourlyRate x d :
  Gig.val (Gig.assign_hourlyRate x d) = Gig.set_hourlyRate x (Gig.val d).
Proof. unfold Gig.assign_hourlyRate. by destruct (Qeq_bool _ _). Qed.

Lemma val_assign_duration x d :
  Gig.val (Gig.assign_duration x d) = Gig.set_duration x (Gig.val d).
Proof. unfold Gig.assign_duration. by destruct (Qeq_bool _ _). Qed.

Lemma val_assign_totalAmount x d :
  Gig.val (Gig.assign_totalAmount x d) = Gig.set_totalAmount x (Gig.val d).
Proof. unfold Gig.assign_totalAmount. by destruct (numEq _ _). Qed.

Lemma val_assign_views x d :
  Gig.val (Gig.assign_views x d) = Gig.set_views x (Gig.val d).
Proof. unfold Gig.assign_views. by destruct (Qeq_bool _ _). Qed.

Create Rewrite HintDb gigval.

Create HintDb gigdoc.

#[export] Hint Rewrite val_assign_worker val_assign_status
  val_assign_assignedAt val_assign_startedAt val_assign_completedAt
  val_assign_applications val_assign_hourlyRate val_assign_duration
  val_assign_totalAmount val_assign_views : gigval.

Lemma isModified_mark_ne q p d v :
  q ≠ p → Gig.isModified q (Gig.mark p d v) = Gig.isModified q d.
Proof.
  intros Hne. unfold Gig.mark, Gig.isModified at 1 3. simpl.
  destruct (Gig.isModified p d); [done|].
  apply bool_decide_ext. rewrite elem_of_cons. intuition congruence.
Qed.

Lemma isModified_mark p d v : Gig.isModified p (Gig.mark p d v) = true.
Proof.
  unfold Gig.mark, Gig.isModified at 1. simpl.
  destruct (Gig.isModified p d) eqn:E.
  - exact E.
  - apply bool_decide_eq_true_2, list_elem_of_here.
Qed.

Lemma settled_loaded g : settled (Gig.loaded g).
Proof. by repeat split. Qed.

Lemma settled_mark p d v :
  p ≠ Gig.p_hourlyRate → p ≠ Gig.p_duration →
  settled d → settled (Gig.mark p d v).
Proof.
  intros H1 H2 (Hn & Hh & Hd). repeat split; [done|..];
    by rewrite isModified_mark_ne.
Qed.

Lemma settled_assign_worker x d : settled d → settled (Gig.assign_worker x d).
Proof.
  intros H. unfold Gig.assign_worker. destruct (decide _); [done|].
  by apply settled_mark.
Qed.

Lemma settled_assign_status x d : settled d → settled (Gig.assign_status x d).
Proof.
  intros H. unfold Gig.assign_status. destruct (decide _); [done|].
  by apply settled_mark.
Qed.

Lemma settled_assign_assignedAt x d :
  settled d → settled (Gig.assign_assignedAt x d).
Proof.
  intros H. unfold Gig.assign_assignedAt. destruct (decide _); [done|].
  by apply settled_mark.
Qed.

Lemma settled_assign_startedAt x d :
  settled d → settled (Gig.assign_startedAt x d).
Proof.
  intros H. unfold Gig.assign_startedAt. destruct (decide _); [done|].
  by apply settled_mark.
Qed.

Lemma settled_assign_completedAt x d :
  settled d → settled (Gig.assign_completedAt x d).
Proof.
  intros H. unfold Gig.assign_completedAt. destruct (decide _); [done|].
  by apply settled_mark.
Qed.

Lemma settled_assign_applications x d :
  settled d → settled (Gig.assign_applications x d).
Proof. intros H. by apply settled_mark. Qed.

Lemma settled_assign_views x d : settled d → settled (Gig.assign_views x d).
Proof.
  intros H. unfold Gig.assign_views. destruct (Qeq_bool _ _); [done|].
  by apply settled_mark.
Qed.

#[export] Hint Resolve settled_loaded settled_assign_worker
  settled_assign_status settled_assign_assignedAt settled_assign_startedAt
  settled_assign_completedAt settled_assign_applications
  settled_assign_views : gigdoc.

Lemma preSave_settled d : settled d → Gig.preSave d = d.
Proof. intros (_ & Hh & Hd). unfold Gig.preSave. by rewrite Hh, Hd. Qed.

(** Saving a settled document stores its values under its [_id]. *)
Lemma saveGig_settled d db :
  settled d →
  saveGig d db =
    if Gig.validate (Gig.val d)
    then Some (Gig.loaded (Gig.val d),
               withGigs (<[Gig._id (Gig.val d) := Gig.val d]> (gigs db)) db)
    else None.
Proof.
  intros Hs. unfold saveGig. rewrite (preSave_settled _ Hs).
  destruct Hs as (-> & _). reflexivity.
Qed.

(** ** Guards of start and complete *)

(** C6: with the caller being the gig's worker, startGig answers
    InvalidTransition whenever the status is not assigned, and
    completeGig whenever it is not in-progress; the database, and so the
    gig, is unchanged. *)
Theorem start_complete_reject_wrong_status db id g user env :
  gigs db !! id = Some g →
  Gig.worker g = Some (user_id user) →
  (Gig.status g ≠ Gig.assigned →
     startGig db id user env
       = (db, json 400 "Gig must be assigned before starting")
     ∧ outcome (snd (startGig db id user env)) = InvalidTransition
     ∧ gigs (fst (startGig db id user env)) !! id = Some g)
  ∧ (Gig.status g ≠ Gig.in_progress →
     completeGig db id user env
       = (db, json 400 "Gig must be in progress to complete")
     ∧ outcome (snd (completeGig db id user env)) = InvalidTransition
     ∧ gigs (fst (completeGig db id user env)) !! id = Some g).
Proof.
  intros Hg Hw. split; intros Hs.
  - assert (E : startGig db id user env
                = (db, json 400 "Gig must be assigned before starting")).
    { unfold startGig. rewrite (findById_lookup _ _ _ Hg). simpl.
      rewrite Hw. rewrite bool_decide_eq_true_2 by reflexivity. simpl.
      by rewrite bool_decide_eq_false_2. }
    rewrite E. auto.
  - assert (E : completeGig db id user env
                = (db, json 400 "Gig must be in progress to complete")).
    { unfold completeGig. rewrite (findById_lookup _ _ _ Hg). simpl.
      rewrite Hw. rewrite bool_decide_eq_true_2 by reflexivity. simpl.
      by rewrite bool_decide_eq_false_2. }
    rewrite E. auto.
Qed.

Lemma start_complete_reject_wrong_status_witness :
  (startGig Sample.dbCompleted Sample.gigId Sample.workerB Sample.later
     = (Sample.dbCompleted, json 400 "Gig must be assigned before starting")
   ∧ outcome (snd (startGig Sample.dbCompleted Sample.gigId Sample.workerB
                     Sample.later))
     = InvalidTransition
   ∧ gigs (fst (startGig Sample.dbCompleted Sample.gigId Sample.workerB
                  Sample.later)) !! Sample.gigId
     = Some (Sample.gigOf Sample.dbCompleted))
  ∧ (completeGig Sample.dbCompleted Sample.gigId Sample.workerB Sample.later
     = (Sample.dbCompleted, json 400 "Gig must be in progress to complete")
   ∧ outcome (snd (completeGig Sample.dbCompleted Sample.gigId Sample.workerB
                     Sample.later))
     = InvalidTransition
   ∧ gigs (fst (completeGig Sample.dbCompleted Sample.gigId Sample.workerB
                  Sample.later)) !! Sample.gigId
     = Some (Sample.gigOf Sample.dbCompleted)).
Proof.
  destruct (start_complete_reject_wrong_status Sample.dbCompleted Sample.gigId
              (Sample.gigOf Sample.dbCompleted) Sample.workerB Sample.later)
    as [A B]; [vm_compute; reflexivity | vm_compute; reflexivity |].
  split; [apply A | apply B]; vm_compute; discriminate.
Defined.

(** ** The ownership check on a gig without worker *)

(** C10: on an existing gig whose worker is null, startGig and
    completeGig answer with the generic 500 failure, which is neither
    Forbidden nor InvalidTransition: the ownership check dereferences the
    null worker before the status guard is reached.  Nothing is written. *)
Theorem null_worker_generic_failure db id g user env :
  gigs db !! id = Some g →
  Gig.worker g = None →
  startGig db id user env = (db, json 500 "Failed to start gig")
  ∧ completeGig db id user env = (db, json 500 "Failed to complete gig")
  ∧ outcome (snd (startGig db id user env)) = InternalFailure
  ∧ outcome (snd (completeGig db id user env)) = InternalFailure.
Proof.
  intros Hg Hw.
  assert (Es : startGig db id user env = (db, json 500 "Failed to start gig")).
  { unfold startGig. rewrite (findById_lookup _ _ _ Hg). simpl. by rewrite Hw. }
  assert (Ec : completeGig db id user env
               = (db, json 500 "Failed to complete gig")).
  { unfold completeGig. rewrite (findById_lookup _ _ _ Hg). simpl.
    by rewrite Hw. }
  rewrite Es, Ec. auto.
Qed.

Lemma null_worker_generic_failure_witness :
  startGig Sample.dbABC Sample.gigId Sample.workerB Sample.later
    = (Sample.dbABC, json 500 "Failed to start gig")
  ∧ completeGig Sample.dbABC Sample.gigId Sample.workerB Sample.later
    = (Sample.dbABC, json 500 "Failed to complete gig")
  ∧ outcome (snd (startGig Sample.dbABC Sample.gigId Sample.workerB
                    Sample.later))
    = InternalFailure
  ∧ outcome (snd (completeGig Sample.dbABC Sample.gigId Sample.workerB
                    Sample.later))
    = InternalFailure.
Proof.
  apply (null_worker_generic_failure Sample.dbABC Sample.gigId
           (Sample.gigOf Sample.dbABC));
    vm_compute; reflexivity.
Defined.

(** ** Guards of apply *)

Lemma existingApplication_present user (apps : list Gig.Application) app :
  app ∈ apps → Gig.app_worker app = user_id user →
  present (existingApplication user apps) = true.
Proof.
  intros Hin Hw. unfold existingApplication.
  destruct (list_find_elem_of (λ a, Gig.app_worker a = user_id user) apps app)
    as [[i y] ->]; auto.
Qed.

Lemma existingApplication_absent user (apps : list Gig.Application) :
  Forall (λ app, Gig.app_worker app ≠ user_id user) apps →
  present (existingApplication user apps) = false.
Proof.
  intros Hall. unfold existingApplication.
  by rewrite (proj2 (list_find_None _ apps) Hall).
Qed.

(** C7, amended: on an open gig, a worker who already has an application
    on it, whatever that application's status, is answered
    DuplicateApplication, and nothing is written. *)
Theorem apply_twice_on_open_gig db id g user msg env app :
  gigs db !! id = Some g →
  isLength 0 500 (default "" (trim <$> msg)) = true →
  Gig.status g = Gig.open →
  app ∈ Gig.applications g →
  Gig.app_worker app = user_id user →
  applyForGig db id user msg env
    = (db, json 400 "You have already applied for this gig")
  ∧ outcome (snd (applyForGig db id user msg env)) = DuplicateApplication.
Proof.
  intros Hg Hm Hs Hin Hw.
  assert (E : applyForGig db id user msg env
              = (db, json 400 "You have already applied for this gig")).
  { unfold applyForGig. rewrite Hm. simpl.
    rewrite (findById_lookup _ _ _ Hg). simpl.
    rewrite bool_decide_eq_true_2 by done. simpl.
    by rewrite (existingApplication_present _ _ _ Hin Hw). }
  rewrite E. auto.
Qed.

Lemma apply_twice_on_open_gig_witness :
  applyForGig Sample.dbABC Sample.gigId Sample.workerB None Sample.later
    = (Sample.dbABC, json 400 "You have already applied for this gig")
  ∧ outcome (snd (applyForGig Sample.dbABC Sample.gigId Sample.workerB None
                    Sample.later))
    = DuplicateApplication.
Proof.
  apply (apply_twice_on_open_gig Sample.dbABC Sample.gigId
           (Sample.gigOf Sample.dbABC) Sample.workerB None Sample.later
           {| Gig.app_id := 202%N; Gig.app_worker := 12%N;
              Gig.appliedAt := 7%Z; Gig.app_message := "hi";
              Gig.app_status := Gig.pending |});
    try (vm_compute; reflexivity).
  vm_compute. apply list_elem_of_further, list_elem_of_here.
Defined.

(** C7 as stated fails once the gig has left [open]: worker A, whose
    application is on the assigned gig, is answered by the status guard
    (InvalidTransition), not DuplicateApplication. *)
Lemma apply_twice_counterexample :
  gigs Sample.dbAssigned !! Sample.gigId
    = Some (Sample.gigOf Sample.dbAssigned)
  ∧ Gig.app_worker <$> Gig.applications (Sample.gigOf Sample.dbAssigned)
    = [user_id Sample.workerA; user_id Sample.workerB; user_id Sample.workerC]
  ∧ snd (applyForGig Sample.dbAssigned Sample.gigId Sample.workerA None
           Sample.later)
    = json 400 "Gig is not open for applications"
  ∧ outcome (snd (applyForGig Sample.dbAssigned Sample.gigId Sample.workerA
                    None Sample.later))
    ≠ DuplicateApplication.
Proof.
  repeat apply conj; try (vm_compute; reflexivity).
  vm_compute. discriminate.
Qed.

(** C8, amended: on an open gig whose application array, counted as it
    is, has reached maxApplications, a worker who has no application on
    the gig yet is answered ApplicationLimitReached, and nothing is
    written. *)
Theorem apply_at_limit db id g user msg env :
  gigs db !! id = Some g →
  isLength 0 500 (default "" (trim <$> msg)) = true →
  Gig.status g = Gig.open →
  Forall (λ app, Gig.app_worker app ≠ user_id user) (Gig.applications g) →
  (inject_Z (Z.of_nat (length (Gig.applications g))) == Gig.maxApplications g)%Q →
  applyForGig db id user msg env
    = (db, json 400 "Maximum applications reached for this gig")
  ∧ outcome (snd (applyForGig db id user msg env)) = ApplicationLimitReached.
Proof.
  intros Hg Hm Hs Hnone Hlen.
  assert (E : applyForGig db id user msg env
              = (db, json 400 "Maximum applications reached for this gig")).
  { unfold applyForGig. rewrite Hm. simpl.
    rewrite (findById_lookup _ _ _ Hg). simpl.
    rewrite bool_decide_eq_true_2 by done. simpl.
    rewrite (existingApplication_absent _ _ Hnone).
    assert (L : Qle_bool (Gig.maxApplications g)
                  (inject_Z (Z.of_nat (length (Gig.applications g)))) = true).
    { apply Qle_bool_iff. rewrite Hlen. apply Qle_refl. }
    by rewrite L. }
  rewrite E. auto.
Qed.

Lemma apply_at_limit_witness :
  applyForGig Sample.dbFull Sample.gigId Sample.workerB None Sample.later
    = (Sample.dbFull, json 400 "Maximum applications reached for this gig")
  ∧ outcome (snd (applyForGig Sample.dbFull Sample.gigId Sample.workerB None
                    Sample.later))
    = ApplicationLimitReached.
Proof.
  apply (apply_at_limit Sample.dbFull Sample.gigId
           (Sample.gigOf Sample.dbFull));
    try (vm_compute; reflexivity).
  vm_compute. repeat constructor. discriminate.
Defined.

(** C8 as stated fails for a caller who is already on the list: on the
    open gig that is full with worker A's application, worker A is
    answered DuplicateApplication, the earlier guard. *)
Lemma apply_at_limit_counterexample :
  gigs Sample.dbFull !! Sample.gigId = Some (Sample.gigOf Sample.dbFull)
  ∧ Gig.status (Sample.gigOf Sample.dbFull) = Gig.open
  ∧ (inject_Z (Z.of_nat (length (Gig.applications
                                   (Sample.gigOf Sample.dbFull))))
     == Gig.maxApplications (Sample.gigOf Sample.dbFull))%Q
  ∧ snd (applyForGig Sample.dbFull Sample.gigId Sample.workerA None
           Sample.later)
    = json 400 "You have already applied for this gig"
  ∧ outcome (snd (applyForGig Sample.dbFull Sample.gigId Sample.workerA None
                    Sample.later))
    ≠ ApplicationLimitReached.
Proof.
  repeat apply conj; try (vm_compute; reflexivity).
  vm_compute. discriminate.
Qed.

(** ** Accepting an application *)

Lemma applicationById_Some appId (apps : list Gig.Application) i application :
  applicationById appId apps = Some (i, application) →
  apps !! i = Some application ∧ Gig.app_id application = appId.
Proof.
  unfold applicationById. intros H.
  apply list_find_Some in H. tauto.
Qed.









(** The accept branch, once the gig, its owner and the application are
    found: the status of the gig is not consulted, and the only way to
    fail is the validation of the document in [save]. *)
Lemma resolve_accept_found db id appId user env g i application :
  gigs db !! id = Some g →
  Gig.store g = user_id user →
  applicationById appId (Gig.applications g) = Some (i, application) →
  resolveApplication db id appId user "accept" env =
    let db0 := createNotification (acceptedNotification application g) db in
    if Gig.validate g
    then (withGigs
            (<[Gig._id g := acceptedGig appId i application (now env) g]>
               (gigs db0)) db0,
          json 200 "Application accepted successfully")
    else (db0, json 500 "Failed to manage application").
Proof.
  intros Hg Hstore Hfind. unfold resolveApplication.
  rewrite bool_decide_eq_true_2 by apply list_elem_of_here.
  rewrite (findById_lookup _ _ _ Hg).
  cbn [negb Gig.val Gig.loaded].
  rewrite bool_decide_eq_true_2 by done. cbn [negb].
  rewrite Hfind. cbn [String.eqb Ascii.eqb Bool.eqb].
  rewrite saveGig_settled by auto 10 with gigdoc.
  autorewrite with gigval. cbn [Gig.val Gig.loaded].
  change (Gig.validate (Gig.set_applications _ _)) with (Gig.validate g).
  by destruct (Gig.validate g).
Qed.

Lemma resolve_not_owner db id appId user action env g :
  gigs db !! id = Some g →
  action ∈ ["accept"; "reject"] →
  Gig.store g ≠ user_id user →
  resolveApplication db id appId user action env
  = (db, json 403 "Not authorized to manage this gig").
Proof.
  intros Hg Ha Hs. unfold resolveApplication.
  rewrite bool_decide_eq_true_2 by done.
  rewrite (findById_lookup _ _ _ Hg). cbn [negb Gig.val Gig.loaded].
  by rewrite bool_decide_eq_false_2.
Qed.

Lemma resolve_no_application db id appId user action env g :
  gigs db !! id = Some g →
  action ∈ ["accept"; "reject"] →
  Gig.store g = user_id user →
  applicationById appId (Gig.applications g) = None →
  resolveApplication db id appId user action env
  = (db, json 404 "Application not found").
Proof.
  intros Hg Ha Hs Hn. unfold resolveApplication.
  rewrite bool_decide_eq_true_2 by done.
  rewrite (findById_lookup _ _ _ Hg). cbn [negb Gig.val Gig.loaded].
  rewrite bool_decide_eq_true_2 by done. cbn [negb]. by rewrite Hn.
Qed.



(** C2: on the scenario's gig, already assigned to worker B by the
    accept of application 202, a second accept, of worker C's
    application 203, is not refused: it answers 200, hands the gig to
    worker C and turns B's accepted application into a rejected one. *)
Theorem second_accept_reassigns :
  gigs Sample.dbAssigned !! Sample.gigId
    = Some (Sample.gigOf Sample.dbAssigned)
  ∧ Gig.status (Sample.gigOf Sample.dbAssigned) = Gig.assigned
  ∧ Gig.worker (Sample.gigOf Sample.dbAssigned)
    = Some (user_id Sample.workerB)
  ∧ snd (resolveApplication Sample.dbAssigned Sample.gigId 203%N Sample.shop
           "accept" Sample.later)
    = json 200 "Application accepted successfully"
  ∧ outcome (snd (resolveApplication Sample.dbAssigned Sample.gigId 203%N
                    Sample.shop "accept" Sample.later))
    ≠ InvalidTransition
  ∧ Gig.worker
      <$> gigs (fst (resolveApplication Sample.dbAssigned Sample.gigId 203%N
                       Sample.shop "accept" Sample.later)) !! Sample.gigId
    = Some (Some (user_id Sample.workerC))
  ∧ Gig.app_status
      <$> Gig.applications
            (Sample.gigOf
               (fst (resolveApplication Sample.dbAssigned Sample.gigId 203%N
                       Sample.shop "accept" Sample.later)))
    = [Gig.rejected; Gig.rejected; Gig.accepted].
Proof.
  repeat apply conj; try (vm_compute; reflexivity).
  vm_compute. discriminate.
Qed.

(** ** Completing a gig *)

(** The document [completeGig] builds never passes the validation of
    its schema: no payment method is given, and the fee and the worker
    amount are still undefined when the validators run. *)
Lemma newPayment_invalid g : Payment.validate (newPayment g) = false.
Proof.
  unfold Payment.validate, newPayment. cbn.
  by destruct (present (Gig.worker g)), (Payment.nonNegative (Gig.totalAmount g)).
Qed.

(** What the pre-save hook of the payment schema derives: a tenth of the
    amount, as it comes, and the rest. *)
Lemma Payment_preSave_derives p a :
  Payment.amount p = Some a →
  Payment.platformFee (Payment.preSave p) = Some (a * (1 # 10))%Q
  ∧ Payment.workerAmount (Payment.preSave p) = Some (a - a * (1 # 10))%Q
  ∧ Payment.amount (Payment.preSave p) = Some a.
Proof. intros H. unfold Payment.preSave. rewrite H. by cbn. Qed.

(** No call of [completeGig] adds a payment or answers with success. *)
Lemma completeGig_never_pays db id user env :
  payments (fst (completeGig db id user env)) = payments db
  ∧ outcome (snd (completeGig db id user env)) ≠ Success.
Proof.
  unfold completeGig.
  destruct (findById id db) as [gig|]; [|by split].
  destruct (Gig.worker (Gig.val gig)) as [w|]; [|by split].
  destruct (bool_decide (w = user_id user)); [|by split].
  destruct (bool_decide (Gig.status (Gig.val gig) = Gig.in_progress));
    [|by split].
  cbn [negb].
  destruct (saveGig _ db) as [[gig1 db1]|] eqn:Hsave; [|by split].
  apply saveGig_inv in Hsave as (_ & _ & ->).
  unfold savePayment. rewrite newPayment_invalid. by split.
Qed.

(** C3: worker B completes the started gig of the scenario.  The gig is
    stored as completed, but the payment document is rejected by its
    schema, no Payment is recorded and the answer is the generic 500. *)
Theorem complete_records_no_payment :
  gigs Sample.dbStarted !! Sample.gigId = Some (Sample.gigOf Sample.dbStarted)
  ∧ Gig.status (Sample.gigOf Sample.dbStarted) = Gig.in_progress
  ∧ Gig.worker (Sample.gigOf Sample.dbStarted) = Some (user_id Sample.workerB)
  ∧ numEq (Gig.totalAmount (Sample.gigOf Sample.dbStarted)) (Some (300 # 1))
    = true
  ∧ snd (completeGig Sample.dbStarted Sample.gigId Sample.workerB
           (Sample.at_ 11%Z 0%N))
    = json 500 "Failed to complete gig"
  ∧ Gig.status
      <$> gigs (fst (completeGig Sample.dbStarted Sample.gigId Sample.workerB
                       (Sample.at_ 11%Z 0%N))) !! Sample.gigId
    = Some Gig.completed
  ∧ payments (fst (completeGig Sample.dbStarted Sample.gigId Sample.workerB
                     (Sample.at_ 11%Z 0%N)))
    = [].
Proof.
  repeat apply conj; vm_compute; reflexivity.
Qed.

(** ** The derived total amount *)

Lemma settled_assign_totalAmount x d :
  settled d → settled (Gig.assign_totalAmount x d).
Proof.
  intros H. unfold Gig.assign_totalAmount. destruct (numEq _ _); [done|].
  by apply settled_mark.
Qed.

Lemma val_calculateTotalAmount d :
  Gig.val (Gig.calculateTotalAmount d)
  = Gig.set_totalAmount
      (Some (Gig.hourlyRate (Gig.val d) * Gig.duration (Gig.val d))%Q)
      (Gig.val d).
Proof. unfold Gig.calculateTotalAmount. apply val_assign_totalAmount. Qed.

(** The pre-save hook in action: a document with hourlyRate or duration
    marked modified is stored with the total recomputed from them. *)
Lemma saveGig_recomputes d db d' db' :
  Gig.isModified Gig.p_hourlyRate d = true
  ∨ Gig.isModified Gig.p_duration d = true →
  saveGig d db = Some (d', db') →
  gigs db' !! Gig._id (Gig.val d) = Some (Gig.val d')
  ∧ Gig.hourlyRate (Gig.val d') = Gig.hourlyRate (Gig.val d)
  ∧ Gig.duration (Gig.val d') = Gig.duration (Gig.val d)
  ∧ totalAmountDerived (Gig.val d').
Proof.
  intros Hmod Hsave. apply saveGig_inv in Hsave as (_ & -> & ->).
  assert (Gig.preSave d = Gig.calculateTotalAmount d) as ->.
  { unfold Gig.preSave. by destruct Hmod as [-> | ->]; rewrite ?orb_true_r. }
  cbn [Gig.val Gig.loaded gigs withGigs].
  rewrite val_calculateTotalAmount.
  split; [apply lookup_insert_eq|]. by repeat split.
Qed.

Lemma assign_hourlyRate_marks x d :
  Qeq_bool (Gig.hourlyRate (Gig.val d)) x = false →
  Gig.isModified Gig.p_hourlyRate (Gig.assign_hourlyRate x d) = true.
Proof.
  intros H. unfold Gig.assign_hourlyRate. rewrite H. apply isModified_mark.
Qed.

Lemma assign_duration_marks x d :
  Qeq_bool (Gig.duration (Gig.val d)) x = false →
  Gig.isModified Gig.p_duration (Gig.assign_duration x d) = true.
Proof.
  intros H. unfold Gig.assign_duration. rewrite H. apply isModified_mark.
Qed.

Lemma assign_duration_keeps_hourlyRate_mark x d :
  Gig.isModified Gig.p_hourlyRate (Gig.assign_duration x d)
  = Gig.isModified Gig.p_hourlyRate d.
Proof.
  unfold Gig.assign_duration. destruct (Qeq_bool _ _); [done|].
  by apply isModified_mark_ne.
Qed.

Lemma newGig_marks user body env :
  Gig.isModified Gig.p_hourlyRate (newGig user body env) = true.
Proof. apply bool_decide_eq_true_2, list_elem_of_here. Qed.

(** C4: a gig that [createGig] has created satisfies
    totalAmount = hourlyRate * duration, and so does a stored gig after
    a write that assigns hourlyRate and duration, at least one of them
    to a different value, and saves: the pre-save hook recomputes the
    derived field on that write. *)
Theorem totalAmount_recomputed_on_write :
  (∀ db user body env,
     statusCode (snd (createGig db user body env)) = 201 →
     ∃ g, gigs (fst (createGig db user body env)) !! newId env = Some g
          ∧ totalAmountDerived g)
  ∧ (∀ db g rate hours d' db',
       Qeq_bool (Gig.hourlyRate g) rate = false
       ∨ Qeq_bool (Gig.duration g) hours = false →
       saveGig (Gig.assign_duration hours
                  (Gig.assign_hourlyRate rate (Gig.loaded g))) db
       = Some (d', db') →
       gigs db' !! Gig._id g = Some (Gig.val d')
       ∧ Gig.hourlyRate (Gig.val d') = rate
       ∧ Gig.duration (Gig.val d') = hours
       ∧ totalAmountDerived (Gig.val d')).
Proof.
  split.
  - intros db user body env Hok. unfold createGig in *.
    destruct (createValidators body); cbn [negb] in *; [|discriminate Hok].
    destruct (saveGig (newGig user body env) db) as [[gig1 db1]|] eqn:H1;
      [|discriminate Hok].
    apply saveGig_inv in H1 as (_ & -> & ->).
    rewrite saveGig_settled in Hok |- *
      by (apply settled_assign_totalAmount, settled_loaded).
    destruct (Gig.validate _); [|discriminate Hok].
    eexists. split.
    + cbn [fst gigs withGigs]. rewrite val_calculateTotalAmount.
      cbn [Gig._id Gig.set_totalAmount Gig.val Gig.loaded].
      assert (Gig.preSave (newGig user body env)
              = Gig.calculateTotalAmount (newGig user body env)) as ->.
      { unfold Gig.preSave. by rewrite newGig_marks. }
      rewrite val_calculateTotalAmount.
      cbn [Gig._id Gig.set_totalAmount Gig.val newGig].
      apply lookup_insert_eq.
    + reflexivity.
  - intros db g rate hours d' db' Hch Hsave.
    apply saveGig_recomputes in Hsave as (Hl & Hr & Hd & Ht).
    + revert Hl Hr Hd. rewrite val_assign_duration, val_assign_hourlyRate.
      cbn. auto.
    + destruct Hch as [Hch|Hch].
      * left. rewrite assign_duration_keeps_hourlyRate_mark.
        by apply assign_hourlyRate_marks.
      * right. apply assign_duration_marks.
        by rewrite val_assign_hourlyRate.
Qed.

Lemma totalAmount_recomputed_on_write_witness :
  (∃ g, gigs (fst (createGig Sample.db0 Sample.shop
                     (Sample.body 0%Z Sample.threeHours None)
                     (Sample.at_ 5%Z Sample.gigId))) !! Sample.gigId = Some g
        ∧ totalAmountDerived g)
  ∧ match saveGig (Gig.assign_duration (4 # 1)
                     (Gig.assign_hourlyRate (150 # 1)
                        (Gig.loaded (Sample.gigOf Sample.dbOpen))))
            Sample.dbOpen with
    | Some (d', db') =>
        gigs db' !! Sample.gigId = Some (Gig.val d')
        ∧ Gig.hourlyRate (Gig.val d') = (150 # 1)%Q
        ∧ Gig.duration (Gig.val d') = (4 # 1)%Q
        ∧ totalAmountDerived (Gig.val d')
    | None => False
    end.
Proof.
  destruct totalAmount_recomputed_on_write as [Hcreate Hwrite]. split.
  - apply (Hcreate Sample.db0 Sample.shop
             (Sample.body 0%Z Sample.threeHours None)
             (Sample.at_ 5%Z Sample.gigId)).
    vm_compute. reflexivity.
  - destruct (saveGig _ Sample.dbOpen) as [[d' db']|] eqn:Hsave.
    + apply (Hwrite Sample.dbOpen (Sample.gigOf Sample.dbOpen)
               (150 # 1)%Q (4 # 1)%Q d' db'); [|exact Hsave].
      left. vm_compute. reflexivity.
    + vm_compute in Hsave. discriminate Hsave.
Defined.

(** ** Creating a gig *)

(** X30: the validator chains refuse a body with a required field missing, a
    category outside the enumeration, a rate below 50 or a time that is
    not a timestamp, and then nothing is created. *)
Lemma createGig_validation_error db user body env :
  b_title body = None ∨ b_description body = None
  ∨ b_address body = None ∨ b_city body = None
  ∨ b_state body = None ∨ b_pincode body = None
  ∨ (∀ c, b_category body = Some c → c ∉ Gig.categories)
  ∨ (∀ r, b_hourlyRate body = Some r → (r < 50)%Q)
  ∨ b_startTime body = None ∨ b_endTime body = None →
  createGig db user body env = (db, json 400 "Validation errors")
  ∧ outcome (snd (createGig db user body env)) = ValidationError.
Proof.
  intros H.
  assert (createValidators body = false) as Hv.
  { unfold createValidators, validTitle, validDescription.
    destruct H as [->|[->|[->|[->|[->|[->|[Hc|[Hr|[->| ->]]]]]]]]];
      rewrite ?andb_false_r; try reflexivity.
    - assert (validCategory (b_category body) = false) as ->.
      { unfold validCategory. destruct (b_category body) as [c|]; [|done].
        apply bool_decide_eq_false_2. by apply Hc. }
      by rewrite ?andb_false_r.
    - assert (validHourlyRate (b_hourlyRate body) = false) as ->.
      { unfold validHourlyRate. destruct (b_hourlyRate body) as [r|]; [|done].
        apply not_true_is_false. intros Hle. apply Qle_bool_iff in Hle.
        apply (Qlt_not_le _ _ (Hr r eq_refl) Hle). }
      by rewrite ?andb_false_r. }
  unfold createGig. rewrite Hv. by split.
Qed.

(** C9: a body that passes every validator chain, with endTime three
    hours before startTime, is not refused: the gig is created, with a
    negative duration and a negative total amount. *)
Theorem create_accepts_end_before_start :
  ∃ g,
    snd (createGig Sample.db0 Sample.shop
           (Sample.body Sample.threeHours 0%Z None)
           (Sample.at_ 5%Z Sample.gigId))
    = json 201 "Gig created successfully"
    ∧ gigs (fst (createGig Sample.db0 Sample.shop
                   (Sample.body Sample.threeHours 0%Z None)
                   (Sample.at_ 5%Z Sample.gigId))) !! Sample.gigId
      = Some g
    ∧ (Gig.endTime g < Gig.startTime g)%Z
    ∧ (Gig.duration g == - (3 # 1))%Q
    ∧ numEq (Gig.totalAmount g) (Some (- (300 # 1))%Q) = true.
Proof.
  eexists. split; [vm_compute; reflexivity|].
  split; [vm_compute; reflexivity|].
  repeat apply conj; vm_compute; reflexivity.
Qed.

(** C5: a body that names a status is stored with it.  The gig created
    here is assigned and has no worker, so the invariant between worker
    and status fails on a gig reached through createGig alone. *)
Theorem create_with_status_has_no_worker :
  ∃ g,
    snd (createGig Sample.db0 Sample.shop
           (Sample.body 0%Z Sample.threeHours (Some Gig.assigned))
           (Sample.at_ 5%Z Sample.gigId))
    = json 201 "Gig created successfully"
    ∧ gigs (fst (createGig Sample.db0 Sample.shop
                   (Sample.body 0%Z Sample.threeHours (Some Gig.assigned))
                   (Sample.at_ 5%Z Sample.gigId))) !! Sample.gigId
      = Some g
    ∧ Gig.status g = Gig.assigned
    ∧ Gig.worker g = None
    ∧ ¬ workerMatchesStatus g.
Proof.
  eexists. split; [vm_compute; reflexivity|].
  split; [vm_compute; reflexivity|].
  split; [reflexivity|]. split; [reflexivity|].
  intros [_ H]. apply H; [by left|reflexivity].
Qed.

(** ** The worker-status invariant along the lifecycle

    Past creation the handlers keep the invariant: apply and reject
    touch only the applications, accept sets a worker and the status
    assigned together, start and complete run only on a gig with a
    worker. *)

Ltac stored_unchanged g := exists g; by split.

Lemma applyForGig_keeps_worker_status db id g user msg env :
  gigs db !! id = Some g → Gig._id g = id → workerMatchesStatus g →
  ∃ g', gigs (fst (applyForGig db id user msg env)) !! id = Some g'
        ∧ workerMatchesStatus g'.
Proof.
  intros Hg Hid Hinv. unfold applyForGig.
  destruct (isLength 0 500 _); cbn [negb]; [|stored_unchanged g].
  rewrite (findById_lookup _ _ _ Hg). cbn [Gig.val Gig.loaded].
  destruct (bool_decide (Gig.status g = Gig.open)); cbn [negb];
    [|stored_unchanged g].
  destruct (present (existingApplication user _)); [stored_unchanged g|].
  destruct (Qle_bool _ _); [stored_unchanged g|].
  rewrite saveGig_settled by auto with gigdoc.
  autorewrite with gigval. cbn [Gig.val Gig.loaded].
  change (Gig.validate (Gig.set_applications _ _)) with (Gig.validate g).
  destruct (Gig.validate g); [|stored_unchanged g].
  eexists. split; [cbn; rewrite Hid; apply lookup_insert_eq|]. exact Hinv.
Qed.

Lemma resolveApplication_keeps_worker_status db id g appId user action env :
  gigs db !! id = Some g → Gig._id g = id → workerMatchesStatus g →
  ∃ g', gigs (fst (resolveApplication db id appId user action env)) !! id
        = Some g'
        ∧ workerMatchesStatus g'.
Proof.
  intros Hg Hid Hinv. unfold resolveApplication.
  destruct (bool_decide (action ∈ _)); cbn [negb]; [|stored_unchanged g].
  rewrite (findById_lookup _ _ _ Hg). cbn [Gig.val Gig.loaded].
  destruct (bool_decide (Gig.store g = user_id user)); cbn [negb];
    [|stored_unchanged g].
  destruct (applicationById appId _) as [[i application]|];
    [|stored_unchanged g].
  destruct (String.eqb action "accept").
  - rewrite saveGig_settled by auto 10 with gigdoc.
    autorewrite with gigval. cbn [Gig.val Gig.loaded].
    change (Gig.validate (Gig.set_applications _ _)) with (Gig.validate g).
    destruct (Gig.validate g); [|stored_unchanged g].
    eexists. split; [cbn; rewrite Hid; apply lookup_insert_eq|].
    split; [by left|done].
  - rewrite saveGig_settled by auto with gigdoc.
    autorewrite with gigval. cbn [Gig.val Gig.loaded].
    change (Gig.validate (Gig.set_applications _ _)) with (Gig.validate g).
    destruct (Gig.validate g); [|stored_unchanged g].
    eexists. split; [cbn; rewrite Hid; apply lookup_insert_eq|]. exact Hinv.
Qed.

Lemma startGig_keeps_worker_status db id g user env :
  gigs db !! id = Some g → Gig._id g = id → workerMatchesStatus g →
  ∃ g', gigs (fst (startGig db id user env)) !! id = Some g'
        ∧ workerMatchesStatus g'.
Proof.
  intros Hg Hid Hinv. unfold startGig.
  rewrite (findById_lookup _ _ _ Hg). cbn [Gig.val Gig.loaded].
  destruct (Gig.worker g) as [w|] eqn:Hw; [|stored_unchanged g].
  destruct (bool_decide (w = user_id user)); cbn [negb]; [|stored_unchanged g].
  destruct (bool_decide (Gig.status g = Gig.assigned)); cbn [negb];
    [|stored_unchanged g].
  rewrite saveGig_settled by auto with gigdoc.
  autorewrite with gigval. cbn [Gig.val Gig.loaded].
  change (Gig.validate (Gig.set_startedAt _ _)) with (Gig.validate g).
  destruct (Gig.validate g); [|stored_unchanged g].
  eexists. split; [cbn; rewrite Hid; apply lookup_insert_eq|].
  split; [by right; left|]. intros _. cbn. by rewrite Hw.
Qed.

Lemma completeGig_keeps_worker_status db id g user env :
  gigs db !! id = Some g → Gig._id g = id → workerMatchesStatus g →
  ∃ g', gigs (fst (completeGig db id user env)) !! id = Some g'
        ∧ workerMatchesStatus g'.
Proof.
  intros Hg Hid Hinv. unfold completeGig.
  rewrite (findById_lookup _ _ _ Hg). cbn [Gig.val Gig.loaded].
  destruct (Gig.worker g) as [w|] eqn:Hw; [|stored_unchanged g].
  destruct (bool_decide (w = user_id user)); cbn [negb]; [|stored_unchanged g].
  destruct (bool_decide (Gig.status g = Gig.in_progress)); cbn [negb];
    [|stored_unchanged g].
  rewrite saveGig_settled by auto with gigdoc.
  autorewrite with gigval. cbn [Gig.val Gig.loaded].
  change (Gig.validate (Gig.set_completedAt _ _)) with (Gig.validate g).
  destruct (Gig.validate g); [|stored_unchanged g].
  unfold savePayment. rewrite newPayment_invalid.
  eexists. split; [cbn; rewrite Hid; apply lookup_insert_eq|].
  split; [by right; right|]. intros _. cbn. by rewrite Hw.
Qed.

(** Creation itself keeps it when the body names neither a status nor a
    worker: the gig starts open and without worker. *)
Lemma createGig_plain_worker_status db user body env :
  b_status body = None → b_worker body = None →
  statusCode (snd (createGig db user body env)) = 201 →
  ∃ g, gigs (fst (createGig db user body env)) !! newId env = Some g
       ∧ Gig.status g = Gig.open ∧ Gig.worker g = None
       ∧ workerMatchesStatus g.
Proof.
  intros Hst Hwk Hok. unfold createGig in *.
  destruct (createValidators body); cbn [negb] in *; [|discriminate Hok].
  destruct (saveGig (newGig user body env) db) as [[gig1 db1]|] eqn:H1;
    [|discriminate Hok].
  apply saveGig_inv in H1 as (_ & -> & ->).
  rewrite saveGig_settled in Hok |- *
    by (apply settled_assign_totalAmount, settled_loaded).
  destruct (Gig.validate _); [|discriminate Hok].
  assert (Gig.preSave (newGig user body env)
          = Gig.calculateTotalAmount (newGig user body env)) as ->.
  { unfold Gig.preSave. by rewrite newGig_marks. }
  eexists. split.
  - cbn [fst gigs withGigs]. rewrite !val_calculateTotalAmount.
    cbn [Gig._id Gig.set_totalAmount Gig.val Gig.loaded newGig].
    apply lookup_insert_eq.
  - unfold workerMatchesStatus. cbn. rewrite Hst, Hwk. cbn.
    split; [done|]. split; [done|]. split; [done|].
    intros [?|[?|?]]; discriminate.
Qed.

(** * Further properties of the router *)

(** ** The effect of a request on the gig it addresses *)

Lemma gigStep_fields g g' :
  core g' = core g →
  Gig.applications g' = Gig.applications g →
  gigStep g g'.
Proof.
  intros Hc Ha. unfold gigStep, workersOf. rewrite Ha. by repeat split.
Qed.

Lemma appIdentity_setAppStatus s a :
  appIdentity (Gig.setAppStatus s a) = appIdentity a.
Proof. reflexivity. Qed.

Lemma worker_setAppStatus s a :
  Gig.app_worker (Gig.setAppStatus s a) = Gig.app_worker a.
Proof. reflexivity. Qed.

Lemma fmap_insert_same {A B} (f : A → B) (l : list A) i x y :
  l !! i = Some x → f y = f x → f <$> <[i := y]> l = f <$> l.
Proof.
  intros Hi Hf. rewrite list_fmap_insert, Hf.
  apply list_insert_id. by rewrite list_lookup_fmap, Hi.
Qed.

Lemma acceptInArray_identity {B} (f : Gig.Application → B) appId i application
    (apps : list Gig.Application) :
  (∀ s a, f (Gig.setAppStatus s a) = f a) →
  apps !! i = Some application →
  f <$> acceptInArray appId i application apps = f <$> apps.
Proof.
  intros Hf Hi. unfold acceptInArray. rewrite <- list_fmap_compose.
  rewrite <- (fmap_insert_same f apps i application
                (Gig.setAppStatus Gig.accepted application)) by auto.
  apply list_fmap_ext. intros _ a _. simpl. by destruct (decide _).
Qed.

Lemma rejectInArray_identity {B} (f : Gig.Application → B) i application
    (apps : list Gig.Application) :
  (∀ s a, f (Gig.setAppStatus s a) = f a) →
  apps !! i = Some application →
  f <$> rejectInArray i application apps = f <$> apps.
Proof.
  intros Hf Hi. unfold rejectInArray.
  by apply (fmap_insert_same f apps i application).
Qed.

Lemma gigStep_statuses g g' :
  core g' = core g →
  appIdentity <$> Gig.applications g' = appIdentity <$> Gig.applications g →
  Gig.app_worker <$> Gig.applications g' = Gig.app_worker <$> Gig.applications g →
  gigStep g g'.
Proof.
  intros Hc Ha Hw. unfold gigStep, workersOf. rewrite Ha, Hw. by repeat split.
Qed.

Lemma existingApplication_absent_inv user (apps : list Gig.Application) :
  present (existingApplication user apps) = false →
  Forall (λ app, Gig.app_worker app ≠ user_id user) apps.
Proof.
  unfold existingApplication. intros H.
  destruct (list_find _ apps) eqn:E; [done|]. by apply list_find_None in E.
Qed.

Lemma gigStep_push g a :
  Forall (λ app, Gig.app_worker app ≠ Gig.app_worker a) (Gig.applications g) →
  gigStep g (Gig.set_applications (Gig.applications g ++ [a]) g).
Proof.
  intros Hnew. unfold gigStep, workersOf. cbn. rewrite !fmap_app.
  split; [done|]. split; [by apply prefix_app_r|].
  intros Hnd. apply NoDup_app. split; [done|]. split.
  - intros w Hw Hin. apply list_elem_of_fmap in Hw as (b & -> & Hb).
    cbn in Hin. apply list_elem_of_singleton in Hin.
    by apply (proj1 (Forall_forall _ _) Hnew b).
  - cbn. apply NoDup_singleton.
Qed.

Lemma getGig_stepped db id g :
  gigs db !! id = Some g → Gig._id g = id →
  stepped db (fst (getGig db id)) id g.
Proof.
  intros Hg Hid. unfold getGig. rewrite (findById_lookup _ _ _ Hg).
  rewrite saveGig_settled by auto with gigdoc.
  autorewrite with gigval. cbn [Gig.val Gig.loaded].
  destruct (Gig.validate _); [|by left].
  right. eexists. split; [cbn; by rewrite Hid|]. by apply gigStep_fields.
Qed.

Lemma applyForGig_stepped db id g user msg env :
  gigs db !! id = Some g → Gig._id g = id →
  stepped db (fst (applyForGig db id user msg env)) id g.
Proof.
  intros Hg Hid. unfold applyForGig.
  destruct (isLength 0 500 _); cbn [negb]; [|by left].
  rewrite (findById_lookup _ _ _ Hg). cbn [Gig.val Gig.loaded].
  destruct (bool_decide (Gig.status g = Gig.open)); cbn [negb]; [|by left].
  destruct (present (existingApplication user _)) eqn:Hex; [by left|].
  destruct (Qle_bool _ _); [by left|].
  rewrite saveGig_settled by auto with gigdoc.
  autorewrite with gigval. cbn [Gig.val Gig.loaded].
  destruct (Gig.validate _); [|by left].
  right. eexists. split; [cbn; by rewrite Hid|].
  apply gigStep_push. cbn. by apply existingApplication_absent_inv.
Qed.

Lemma resolveApplication_stepped db id g appId user action env :
  gigs db !! id = Some g → Gig._id g = id →
  stepped db (fst (resolveApplication db id appId user action env)) id g.
Proof.
  intros Hg Hid. unfold resolveApplication.
  destruct (bool_decide (action ∈ _)); cbn [negb]; [|by left].
  rewrite (findById_lookup _ _ _ Hg). cbn [Gig.val Gig.loaded].
  destruct (bool_decide (Gig.store g = user_id user)); cbn [negb]; [|by left].
  destruct (applicationById appId _) as [[i application]|] eqn:Hfind;
    [|by left].
  destruct (applicationById_Some _ _ _ _ Hfind) as [Hi _].
  destruct (String.eqb action "accept").
  - rewrite saveGig_settled by auto 10 with gigdoc.
    autorewrite with gigval. cbn [Gig.val Gig.loaded].
    destruct (Gig.validate _); [|by left].
    right. eexists. split; [cbn; by rewrite Hid|].
    apply gigStep_statuses; [done|..]; cbn; by apply acceptInArray_identity.
  - rewrite saveGig_settled by auto with gigdoc.
    autorewrite with gigval. cbn [Gig.val Gig.loaded].
    destruct (Gig.validate _); [|by left].
    right. eexists. split; [cbn; by rewrite Hid|].
    apply gigStep_statuses; [done|..]; cbn; by apply rejectInArray_identity.
Qed.

Lemma startGig_stepped db id g user env :
  gigs db !! id = Some g → Gig._id g = id →
  stepped db (fst (startGig db id user env)) id g.
Proof.
  intros Hg Hid. unfold startGig.
  rewrite (findById_lookup _ _ _ Hg). cbn [Gig.val Gig.loaded].
  destruct (Gig.worker g) as [w|]; [|by left].
  destruct (bool_decide (w = user_id user)); cbn [negb]; [|by left].
  destruct (bool_decide (Gig.status g = Gig.assigned)); cbn [negb]; [|by left].
  rewrite saveGig_settled by auto with gigdoc.
  autorewrite with gigval. cbn [Gig.val Gig.loaded].
  destruct (Gig.validate _); [|by left].
  right. eexists. split; [cbn; by rewrite Hid|]. by apply gigStep_fields.
Qed.

Lemma completeGig_stepped db id g user env :
  gigs db !! id = Some g → Gig._id g = id →
  stepped db (fst (completeGig db id user env)) id g.
Proof.
  intros Hg Hid. unfold completeGig.
  rewrite (findById_lookup _ _ _ Hg). cbn [Gig.val Gig.loaded].
  destruct (Gig.worker g) as [w|]; [|by left].
  destruct (bool_decide (w = user_id user)); cbn [negb]; [|by left].
  destruct (bool_decide (Gig.status g = Gig.in_progress)); cbn [negb];
    [|by left].
  rewrite saveGig_settled by auto with gigdoc.
  autorewrite with gigval. cbn [Gig.val Gig.loaded].
  destruct (Gig.validate _); [|by left].
  unfold savePayment. rewrite newPayment_invalid.
  right. eexists. split; [cbn; by rewrite Hid|]. by apply gigStep_fields.
Qed.

Lemma route_stepped db req env id g :
  target req = Some id →
  gigs db !! id = Some g → Gig._id g = id →
  stepped db (fst (route db req env)) id g.
Proof.
  intros Ht Hg Hid. destruct req; simplify_eq/=.
  - by apply getGig_stepped.
  - by apply applyForGig_stepped.
  - by apply resolveApplication_stepped.
  - by apply startGig_stepped.
  - by apply completeGig_stepped.
Qed.

(** A request that addresses no stored gig leaves the collection. *)
Lemma route_missing db req env id :
  target req = Some id → gigs db !! id = None →
  route db req env = (db, json 404 "Gig not found")
  ∨ route db req env = (db, json 400 "Validation errors").
Proof.
  intros Ht Hg.
  assert (findById id db = None) as Hf by (unfold findById; by rewrite Hg).
  destruct req; simplify_eq/=.
  - left. unfold getGig. by rewrite Hf.
  - unfold applyForGig. destruct (isLength 0 500 _); cbn [negb]; [|by right].
    left. by rewrite Hf.
  - unfold resolveApplication.
    destruct (bool_decide (action ∈ _)); cbn [negb]; [|by right].
    left. by rewrite Hf.
  - left. unfold startGig. by rewrite Hf.
  - left. unfold completeGig. by rewrite Hf.
Qed.

(** [createGig] stores at most the new document, and only under an
    [_id] that is free. *)
Lemma createGig_stepped db user body env :
  gigs (fst (createGig db user body env)) = gigs db
  ∨ (gigs db !! newId env = None
     ∧ ∃ g, gigs (fst (createGig db user body env))
            = <[newId env := g]> (gigs db)
            ∧ Gig._id g = newId env ∧ Gig.store g = user_id user
            ∧ Gig.applications g = [] ∧ totalAmountDerived g).
Proof.
  unfold createGig.
  destruct (createValidators body); cbn [negb]; [|by left].
  destruct (saveGig (newGig user body env) db) as [[gig1 db1]|] eqn:H1;
    [|by left].
  assert (Gig.preSave (newGig user body env)
          = Gig.calculateTotalAmount (newGig user body env)) as Hp.
  { unfold Gig.preSave. by rewrite newGig_marks. }
  assert (gigs db !! newId env = None) as Hfree.
  { unfold saveGig in H1. destruct (Gig.validate _); [|done].
    rewrite Hp, val_calculateTotalAmount in H1. cbn in H1.
    by destruct (gigs db !! newId env). }
  apply saveGig_inv in H1 as (_ & -> & ->). rewrite Hp.
  rewrite saveGig_settled
    by (apply settled_assign_totalAmount, settled_loaded).
  right. split; [done|].
  destruct (Gig.validate _); eexists;
    cbn [fst gigs withGigs Gig.loaded Gig.val];
    rewrite ?val_calculateTotalAmount; cbn;
    rewrite ?insert_insert_eq; by repeat split.
Qed.

(** ** Runs of the router *)

Lemma route_collectionStep db req env :
  keyed db → collectionStep env db (fst (route db req env)).
Proof.
  intros Hk. destruct (target req) as [id|] eqn:Ht.
  - destruct (gigs db !! id) as [g|] eqn:Hg.
    + destruct (route_stepped db req env id g Ht Hg (Hk _ _ Hg))
        as [Hsame|(g' & Hins & Hstep)]; [by left|].
      right. left. by exists id, g, g'.
    + left. by destruct (route_missing db req env id Ht Hg) as [-> | ->].
  - destruct req; simplify_eq/=.
    destruct (createGig_stepped db user body env)
      as [Hsame|(Hfree & g' & Hins & Hid & _ & Happs & Htot)]; [by left|].
    right. right. by exists g'.
Qed.

Lemma gigStep_refl g : gigStep g g.
Proof. by apply gigStep_fields. Qed.

Lemma gigStep_trans g1 g2 g3 : gigStep g1 g2 → gigStep g2 g3 → gigStep g1 g3.
Proof.
  intros (Hc1 & Hp1 & Hn1) (Hc2 & Hp2 & Hn2). repeat split.
  - congruence.
  - by etrans.
  - auto.
Qed.

Lemma gigStep_id g g' : gigStep g g' → Gig._id g' = Gig._id g.
Proof. intros (Hc & _). unfold core in Hc. by simplify_eq. Qed.

Lemma collectionStep_keyed env db db' :
  collectionStep env db db' → keyed db → keyed db'.
Proof.
  intros [Hs|[(id & g & g' & Hg & Hs & Hstep)|(g' & Hfree & Hs & Hid & _)]]
    Hk id' x; rewrite Hs; [apply Hk|..].
  - rewrite lookup_insert. case_decide; [|apply Hk].
    intros [= <-]. subst. rewrite (gigStep_id _ _ Hstep). by apply Hk.
  - rewrite lookup_insert. case_decide; [|apply Hk].
    intros [= <-]. by subst.
Qed.

Lemma collectionStep_gig env db db' id g :
  collectionStep env db db' → keyed db →
  gigs db !! id = Some g →
  ∃ g', gigs db' !! id = Some g' ∧ gigStep g g'.
Proof.
  intros [Hs|[(id0 & g0 & g' & Hg0 & Hs & Hstep)|(g' & Hfree & Hs & _)]]
    Hk Hg; rewrite Hs.
  - exists g. split; [done|apply gigStep_refl].
  - rewrite lookup_insert. case_decide; subst.
    + exists g'. split; [done|]. by simplify_eq.
    + exists g. split; [done|apply gigStep_refl].
  - rewrite lookup_insert. case_decide; subst; [congruence|].
    exists g. split; [done|apply gigStep_refl].
Qed.

Lemma run_keyed db reqs : keyed db → keyed (run db reqs).
Proof.
  revert db. induction reqs as [|[req env] rest IH]; intros db Hk; [done|].
  cbn. apply IH. eapply collectionStep_keyed; [|done].
  by apply route_collectionStep.
Qed.

Lemma run_gigStep db reqs id g :
  keyed db → gigs db !! id = Some g →
  ∃ g', gigs (run db reqs) !! id = Some g' ∧ gigStep g g'.
Proof.
  revert db g. induction reqs as [|[req env] rest IH]; intros db g Hk Hg.
  - exists g. split; [done|apply gigStep_refl].
  - cbn.
    destruct (collectionStep_gig env db _ id g
                (route_collectionStep db req env Hk) Hk Hg)
      as (g1 & Hg1 & Hs1).
    destruct (IH _ g1 (collectionStep_keyed _ _ _
                         (route_collectionStep db req env Hk) Hk) Hg1)
      as (g2 & Hg2 & Hs2).
    exists g2. split; [done|]. by eapply gigStep_trans.
Qed.

Lemma keyed_empty : keyed Sample.db0.
Proof. intros id g Hg. cbn in Hg. by rewrite lookup_empty in Hg. Qed.

Lemma gigStep_total g g' :
  gigStep g g' → totalAmountDerived g → totalAmountDerived g'.
Proof.
  intros (Hc & _) Ht. unfold core in Hc. unfold totalAmountDerived in *.
  simplify_eq. congruence.
Qed.

Lemma collectionStep_sound env db db' :
  collectionStep env db db' → sound db → sound db'.
Proof.
  intros [Hs|[(id & g & g' & Hg & Hs & Hstep)|(g' & Hfree & Hs & Hid & Ha & Ht)]]
    Hsound id' x; rewrite Hs; [apply Hsound|..].
  - rewrite lookup_insert. case_decide; [|apply Hsound].
    intros [= <-]. subst. destruct (Hsound _ _ Hg) as (Hid & Hnd & Ht).
    split; [by rewrite (gigStep_id _ _ Hstep)|]. split.
    + by apply Hstep.
    + by eapply gigStep_total.
  - rewrite lookup_insert. case_decide; [|apply Hsound].
    intros [= <-]. subst. split; [done|]. split; [|done].
    unfold workersOf. rewrite Ha. constructor.
Qed.

Lemma sound_keyed db : sound db → keyed db.
Proof. intros H id g Hg. by apply H. Qed.

Lemma run_sound db reqs : sound db → sound (run db reqs).
Proof.
  revert db. induction reqs as [|[req env] rest IH]; intros db Hs; [done|].
  cbn. apply IH. eapply collectionStep_sound; [|done].
  by apply route_collectionStep, sound_keyed.
Qed.

Lemma sound_empty : sound Sample.db0.
Proof. intros id g Hg. cbn in Hg. by rewrite lookup_empty in Hg. Qed.

(** ** Applying *)

(** X1: on an open, valid gig with room left, a worker without application
    on it is answered 200: the gig gains exactly one pending application,
    the caller's, at the end of the array, and the store is notified. *)
Theorem apply_records_application db id g user msg env :
  gigs db !! id = Some g →
  Gig._id g = id →
  Gig.validate g = true →
  isLength 0 500 (default "" (trim <$> msg)) = true →
  Gig.status g = Gig.open →
  Forall (λ app, Gig.app_worker app ≠ user_id user) (Gig.applications g) →
  (inject_Z (Z.of_nat (length (Gig.applications g)))
   < Gig.maxApplications g)%Q →
  snd (applyForGig db id user msg env)
    = json 200 "Application submitted successfully"
  ∧ gigs (fst (applyForGig db id user msg env))
    = <[id := Gig.set_applications
                (Gig.applications g ++ [newApplication user msg env]) g]>
        (gigs db)
  ∧ payments (fst (applyForGig db id user msg env)) = payments db
  ∧ ∃ n, notifications (fst (applyForGig db id user msg env))
         = (notifications db ++ [n])%list
         ∧ Notification.recipient n = Gig.store g
         ∧ Notification.type n = Notification.application_received
         ∧ Notification.gigId n = id.
Proof.
  intros Hg Hid Hv Hm Hopen Hnone Hroom. unfold applyForGig.
  cbn zeta. rewrite Hm. cbn [negb].
  rewrite (findById_lookup _ _ _ Hg). cbn [Gig.val Gig.loaded].
  rewrite bool_decide_eq_true_2 by done. cbn [negb].
  rewrite (existingApplication_absent _ _ Hnone).
  assert (Qle_bool (Gig.maxApplications g)
            (inject_Z (Z.of_nat (length (Gig.applications g)))) = false) as ->.
  { apply not_true_is_false. intros Hle. apply Qle_bool_iff in Hle.
    by apply (Qlt_not_le _ _ Hroom). }
  rewrite saveGig_settled by auto with gigdoc.
  autorewrite with gigval. cbn [Gig.val Gig.loaded].
  change (Gig.validate (Gig.set_applications _ _)) with (Gig.validate g).
  rewrite Hv. cbn. rewrite Hid.
  split; [done|]. split; [done|]. split; [done|].
  eexists. split; [done|]. by cbn.
Qed.

Lemma apply_records_application_witness :
  snd (applyForGig Sample.dbA Sample.gigId Sample.workerB (Some " hi ")
         (Sample.at_ 7%Z 202%N))
    = json 200 "Application submitted successfully"
  ∧ gigs (fst (applyForGig Sample.dbA Sample.gigId Sample.workerB
                 (Some " hi ") (Sample.at_ 7%Z 202%N)))
    = <[Sample.gigId :=
          Gig.set_applications
            (Gig.applications (Sample.gigOf Sample.dbA)
             ++ [newApplication Sample.workerB (Some " hi ")
                   (Sample.at_ 7%Z 202%N)])
            (Sample.gigOf Sample.dbA)]>
        (gigs Sample.dbA)
  ∧ payments (fst (applyForGig Sample.dbA Sample.gigId Sample.workerB
                     (Some " hi ") (Sample.at_ 7%Z 202%N)))
    = payments Sample.dbA
  ∧ ∃ n, notifications (fst (applyForGig Sample.dbA Sample.gigId
                               Sample.workerB (Some " hi ")
                               (Sample.at_ 7%Z 202%N)))
         = (notifications Sample.dbA ++ [n])%list
         ∧ Notification.recipient n = Gig.store (Sample.gigOf Sample.dbA)
         ∧ Notification.type n = Notification.application_received
         ∧ Notification.gigId n = Sample.gigId.
Proof.
  apply (apply_records_application Sample.dbA Sample.gigId
           (Sample.gigOf Sample.dbA));
    try (vm_compute; reflexivity).
  vm_compute. repeat constructor. discriminate.
Defined.

Lemma applyForGig_not_open db id g user msg env :
  gigs db !! id = Some g →
  isLength 0 500 (default "" (trim <$> msg)) = true →
  Gig.status g ≠ Gig.open →
  applyForGig db id user msg env
    = (db, json 400 "Gig is not open for applications").
Proof.
  intros Hg Hm Hs. unfold applyForGig. cbn zeta. rewrite Hm. cbn [negb].
  rewrite (findById_lookup _ _ _ Hg). cbn [Gig.val Gig.loaded].
  by rewrite bool_decide_eq_false_2.
Qed.

(** X2: a gig that is not open takes no application: whoever applies, with
    whatever history, is answered by the status guard, and nothing is
    written. *)
Theorem apply_refused_unless_open db id g user msg env :
  gigs db !! id = Some g →
  isLength 0 500 (default "" (trim <$> msg)) = true →
  Gig.status g ≠ Gig.open →
  applyForGig db id user msg env
    = (db, json 400 "Gig is not open for applications")
  ∧ outcome (snd (applyForGig db id user msg env)) = InvalidTransition.
Proof.
  intros Hg Hm Hs. by rewrite (applyForGig_not_open _ _ _ _ _ _ Hg Hm Hs).
Qed.

Lemma apply_refused_unless_open_witness :
  applyForGig Sample.dbStarted Sample.gigId Sample.workerA None Sample.later
    = (Sample.dbStarted, json 400 "Gig is not open for applications")
  ∧ outcome (snd (applyForGig Sample.dbStarted Sample.gigId Sample.workerA
                    None Sample.later))
    = InvalidTransition.
Proof.
  apply (apply_refused_unless_open Sample.dbStarted Sample.gigId
           (Sample.gigOf Sample.dbStarted));
    [vm_compute; reflexivity | vm_compute; reflexivity |].
  vm_compute. discriminate.
Defined.

(** X3: the application array never outgrows an integral maxApplications:
    if it was within the bound before a call of applyForGig, it is so
    after it. *)
Theorem apply_keeps_limit db id g user msg env (bound : Z) :
  gigs db !! id = Some g →
  Gig._id g = id →
  (Gig.maxApplications g == inject_Z bound)%Q →
  (Z.of_nat (length (Gig.applications g)) ≤ bound)%Z →
  ∃ g', gigs (fst (applyForGig db id user msg env)) !! id = Some g'
        ∧ (Z.of_nat (length (Gig.applications g')) ≤ bound)%Z.
Proof.
  intros Hg Hid Hmax Hlen. unfold applyForGig. cbn zeta.
  destruct (isLength 0 500 _); cbn [negb]; [|by exists g].
  rewrite (findById_lookup _ _ _ Hg). cbn [Gig.val Gig.loaded].
  destruct (bool_decide (Gig.status g = Gig.open)); cbn [negb]; [|by exists g].
  destruct (present (existingApplication user _)); [by exists g|].
  destruct (Qle_bool _ _) eqn:Hfull; [by exists g|].
  rewrite saveGig_settled by auto with gigdoc.
  autorewrite with gigval. cbn [Gig.val Gig.loaded].
  destruct (Gig.validate _); [|by exists g].
  eexists. split; [cbn; rewrite Hid; apply lookup_insert_eq|].
  cbn. rewrite length_app. cbn.
  assert (Z.of_nat (length (Gig.applications g)) < bound)%Z; [|lia].
  apply Z.lt_nge. intros Hge. apply not_true_iff_false in Hfull.
  apply Hfull, Qle_bool_iff. rewrite Hmax. by rewrite <- Zle_Qle.
Qed.

Lemma apply_keeps_limit_witness :
  ∃ g', gigs (fst (applyForGig Sample.dbFull Sample.gigId Sample.workerB None
                     Sample.later)) !! Sample.gigId = Some g'
        ∧ (Z.of_nat (length (Gig.applications g')) ≤ 1)%Z.
Proof.
  apply (apply_keeps_limit Sample.dbFull Sample.gigId
           (Sample.gigOf Sample.dbFull));
    vm_compute; first [reflexivity | discriminate].
Defined.

(** ** Resolving an application *)

(** X4: rejecting changes the status of the one application found and
    nothing else: the other applications, the worker and the status of
    the gig stay, and no notification is sent. *)
Theorem reject_changes_one_application db id g appId user env i application :
  gigs db !! id = Some g →
  Gig._id g = id →
  Gig.validate g = true →
  Gig.store g = user_id user →
  applicationById appId (Gig.applications g) = Some (i, application) →
  resolveApplication db id appId user "reject" env
  = (withGigs
       (<[id := Gig.set_applications
                  (<[i := Gig.setAppStatus Gig.rejected application]>
                     (Gig.applications g)) g]> (gigs db)) db,
     json 200 "Application rejected successfully").
Proof.
  intros Hg Hid Hv Hstore Hfind. unfold resolveApplication.
  rewrite bool_decide_eq_true_2
    by apply list_elem_of_further, list_elem_of_here.
  rewrite (findById_lookup _ _ _ Hg). cbn [negb Gig.val Gig.loaded].
  rewrite bool_decide_eq_true_2 by done. cbn [negb].
  rewrite Hfind. cbn [String.eqb Ascii.eqb Bool.eqb].
  rewrite saveGig_settled by auto with gigdoc.
  autorewrite with gigval. cbn [Gig.val Gig.loaded].
  change (Gig.validate (Gig.set_applications _ _)) with (Gig.validate g).
  rewrite Hv. cbn. by rewrite Hid.
Qed.

Lemma reject_changes_one_application_witness :
  resolveApplication Sample.dbABC Sample.gigId 201%N Sample.shop "reject"
    Sample.later
  = (withGigs
       (<[Sample.gigId :=
            Gig.set_applications
              (<[0 := Gig.setAppStatus Gig.rejected
                        (newApplication Sample.workerA None
                           (Sample.at_ 6%Z 201%N))]>
                 (Gig.applications (Sample.gigOf Sample.dbABC)))
              (Sample.gigOf Sample.dbABC)]> (gigs Sample.dbABC))
       Sample.dbABC,
     json 200 "Application rejected successfully").
Proof.
  apply (reject_changes_one_application Sample.dbABC Sample.gigId
           (Sample.gigOf Sample.dbABC) 201%N Sample.shop Sample.later 0
           (newApplication Sample.workerA None (Sample.at_ 6%Z 201%N)));
    vm_compute; reflexivity.
Defined.

(** X5: the guards of resolveApplication, in their order: an action other
    than accept or reject is a validation error, a caller who is not the
    gig's store is forbidden, an id that no application of the gig
    carries is not found.  None of them writes. *)
Theorem resolve_guards db id g appId user action env :
  gigs db !! id = Some g →
  (action ∉ ["accept"; "reject"] →
     resolveApplication db id appId user action env
     = (db, json 400 "Validation errors"))
  ∧ (action ∈ ["accept"; "reject"] → Gig.store g ≠ user_id user →
     resolveApplication db id appId user action env
     = (db, json 403 "Not authorized to manage this gig"))
  ∧ (action ∈ ["accept"; "reject"] → Gig.store g = user_id user →
     Forall (λ app, Gig.app_id app ≠ appId) (Gig.applications g) →
     resolveApplication db id appId user action env
     = (db, json 404 "Application not found")).
Proof.
  intros Hg. repeat split.
  - intros Ha. unfold resolveApplication. by rewrite bool_decide_eq_false_2.
  - intros Ha Hs. by apply (resolve_not_owner _ _ _ _ _ _ g).
  - intros Ha Hs Hnone. apply (resolve_no_application _ _ _ _ _ _ g); auto.
    by apply list_find_None.
Qed.

Lemma resolve_guards_witness :
  resolveApplication Sample.dbABC Sample.gigId 202%N Sample.shop "cancel"
    Sample.later
  = (Sample.dbABC, json 400 "Validation errors")
  ∧ resolveApplication Sample.dbABC Sample.gigId 202%N Sample.workerA "accept"
      Sample.later
    = (Sample.dbABC, json 403 "Not authorized to manage this gig")
  ∧ resolveApplication Sample.dbABC Sample.gigId 999%N Sample.shop "accept"
      Sample.later
    = (Sample.dbABC, json 404 "Application not found").
Proof.
  split; [|split].
  - apply (resolve_guards Sample.dbABC Sample.gigId
             (Sample.gigOf Sample.dbABC) 202%N Sample.shop "cancel"
             Sample.later); [vm_compute; reflexivity|].
    apply (bool_decide_unpack _). vm_compute. exact I.
  - apply (resolve_guards Sample.dbABC Sample.gigId
             (Sample.gigOf Sample.dbABC) 202%N Sample.workerA "accept"
             Sample.later); [vm_compute; reflexivity| |].
    + apply list_elem_of_here.
    + vm_compute. discriminate.
  - apply (resolve_guards Sample.dbABC Sample.gigId
             (Sample.gigOf Sample.dbABC) 999%N Sample.shop "accept"
             Sample.later); [vm_compute; reflexivity| | |].
    + apply list_elem_of_here.
    + vm_compute. reflexivity.
    + vm_compute. repeat constructor; discriminate.
Defined.

(** ** Starting and completing *)

Lemma startGig_assigned db id g user env :
  gigs db !! id = Some g →
  Gig._id g = id →
  Gig.validate g = true →
  Gig.worker g = Some (user_id user) →
  Gig.status g = Gig.assigned →
  startGig db id user env
  = (withGigs
       (<[id := Gig.set_startedAt (Some (now env))
                  (Gig.set_status Gig.in_progress g)]> (gigs db)) db,
     json 200 "Gig started successfully").
Proof.
  intros Hg Hid Hv Hw Hs. unfold startGig.
  rewrite (findById_lookup _ _ _ Hg). cbn [Gig.val Gig.loaded].
  rewrite Hw. rewrite bool_decide_eq_true_2 by done. cbn [negb].
  rewrite bool_decide_eq_true_2 by done. cbn [negb].
  rewrite saveGig_settled by auto with gigdoc.
  autorewrite with gigval. cbn [Gig.val Gig.loaded].
  change (Gig.validate (Gig.set_startedAt _ _)) with (Gig.validate g).
  rewrite Hv. cbn. by rewrite Hid.
Qed.

(** X6: the worker of an assigned, valid gig starts it: the answer is 200,
    the gig is stored in progress with startedAt set to the time of the
    request, and nothing else of the database changes. *)
Theorem start_moves_to_in_progress db id g user env :
  gigs db !! id = Some g →
  Gig._id g = id →
  Gig.validate g = true →
  Gig.worker g = Some (user_id user) →
  Gig.status g = Gig.assigned →
  snd (startGig db id user env) = json 200 "Gig started successfully"
  ∧ gigs (fst (startGig db id user env))
    = <[id := Gig.set_startedAt (Some (now env))
                (Gig.set_status Gig.in_progress g)]> (gigs db)
  ∧ payments (fst (startGig db id user env)) = payments db
  ∧ notifications (fst (startGig db id user env)) = notifications db.
Proof.
  intros Hg Hid Hv Hw Hs.
  by rewrite (startGig_assigned _ _ _ _ _ Hg Hid Hv Hw Hs).
Qed.

Lemma start_moves_to_in_progress_witness :
  snd (startGig Sample.dbAssigned Sample.gigId Sample.workerB Sample.later)
    = json 200 "Gig started successfully"
  ∧ gigs (fst (startGig Sample.dbAssigned Sample.gigId Sample.workerB
                 Sample.later))
    = <[Sample.gigId :=
          Gig.set_startedAt (Some (now Sample.later))
            (Gig.set_status Gig.in_progress
               (Sample.gigOf Sample.dbAssigned))]> (gigs Sample.dbAssigned)
  ∧ payments (fst (startGig Sample.dbAssigned Sample.gigId Sample.workerB
                     Sample.later))
    = payments Sample.dbAssigned
  ∧ notifications (fst (startGig Sample.dbAssigned Sample.gigId
                          Sample.workerB Sample.later))
    = notifications Sample.dbAssigned.
Proof.
  apply (start_moves_to_in_progress Sample.dbAssigned Sample.gigId
           (Sample.gigOf Sample.dbAssigned));
    vm_compute; reflexivity.
Defined.

(** X7: a worker other than the gig's is forbidden to start or complete it,
    whatever the status, and nothing is written. *)
Theorem start_complete_forbidden_to_others db id g w user env :
  gigs db !! id = Some g →
  Gig.worker g = Some w →
  w ≠ user_id user →
  startGig db id user env
    = (db, json 403 "Not authorized to start this gig")
  ∧ completeGig db id user env
    = (db, json 403 "Not authorized to complete this gig").
Proof.
  intros Hg Hw Hne. unfold startGig, completeGig.
  rewrite (findById_lookup _ _ _ Hg). cbn [Gig.val Gig.loaded].
  rewrite Hw. by rewrite bool_decide_eq_false_2.
Qed.

Lemma start_complete_forbidden_to_others_witness :
  startGig Sample.dbAssigned Sample.gigId Sample.workerC Sample.later
    = (Sample.dbAssigned, json 403 "Not authorized to start this gig")
  ∧ completeGig Sample.dbAssigned Sample.gigId Sample.workerC Sample.later
    = (Sample.dbAssigned, json 403 "Not authorized to complete this gig").
Proof.
  apply (start_complete_forbidden_to_others Sample.dbAssigned Sample.gigId
           (Sample.gigOf Sample.dbAssigned) 12%N);
    [vm_compute; reflexivity | vm_compute; reflexivity |].
  vm_compute. discriminate.
Defined.

(** X8: completing is not atomic: for the worker of a valid gig in progress
    the gig is stored as completed, with completedAt set, and the call
    then fails on the payment document, so that the answer is the
    generic 500 and neither a payment nor the notification of the store
    is written. *)
Theorem complete_stores_status_then_fails db id g user env :
  gigs db !! id = Some g →
  Gig._id g = id →
  Gig.validate g = true →
  Gig.worker g = Some (user_id user) →
  Gig.status g = Gig.in_progress →
  completeGig db id user env
  = (withGigs
       (<[id := Gig.set_completedAt (Some (now env))
                  (Gig.set_status Gig.completed g)]> (gigs db)) db,
     json 500 "Failed to complete gig").
Proof.
  intros Hg Hid Hv Hw Hs. unfold completeGig.
  rewrite (findById_lookup _ _ _ Hg). cbn [Gig.val Gig.loaded].
  rewrite Hw. rewrite bool_decide_eq_true_2 by done. cbn [negb].
  rewrite bool_decide_eq_true_2 by done. cbn [negb].
  rewrite saveGig_settled by auto with gigdoc.
  autorewrite with gigval. cbn [Gig.val Gig.loaded].
  change (Gig.validate (Gig.set_completedAt _ _)) with (Gig.validate g).
  rewrite Hv. unfold savePayment. rewrite newPayment_invalid.
  cbn. by rewrite Hid.
Qed.

Lemma complete_stores_status_then_fails_witness :
  completeGig Sample.dbStarted Sample.gigId Sample.workerB Sample.later
  = (withGigs
       (<[Sample.gigId :=
            Gig.set_completedAt (Some (now Sample.later))
              (Gig.set_status Gig.completed (Sample.gigOf Sample.dbStarted))]>
          (gigs Sample.dbStarted)) Sample.dbStarted,
     json 500 "Failed to complete gig").
Proof.
  apply (complete_stores_status_then_fails Sample.dbStarted Sample.gigId
           (Sample.gigOf Sample.dbStarted));
    vm_compute; reflexivity.
Defined.

(** ** Reading a gig *)

(** X9: reading a valid gig by id counts a view and changes nothing else. *)
Theorem getGig_counts_view db id g :
  gigs db !! id = Some g →
  Gig._id g = id →
  Gig.validate g = true →
  getGig db id
  = (withGigs (<[id := Gig.set_views (Gig.views g + 1)%Q g]> (gigs db)) db,
     json 200 "").
Proof.
  intros Hg Hid Hv. unfold getGig.
  rewrite (findById_lookup _ _ _ Hg). cbn [Gig.val Gig.loaded].
  rewrite saveGig_settled by auto with gigdoc.
  autorewrite with gigval. cbn [Gig.val Gig.loaded].
  change (Gig.validate (Gig.set_views _ _)) with (Gig.validate g).
  rewrite Hv. cbn. by rewrite Hid.
Qed.

Lemma getGig_counts_view_witness :
  getGig Sample.dbOpen Sample.gigId
  = (withGigs
       (<[Sample.gigId :=
            Gig.set_views (Gig.views (Sample.gigOf Sample.dbOpen) + 1)%Q
              (Sample.gigOf Sample.dbOpen)]> (gigs Sample.dbOpen))
       Sample.dbOpen,
     json 200 "").
Proof.
  apply (getGig_counts_view Sample.dbOpen Sample.gigId
           (Sample.gigOf Sample.dbOpen));
    vm_compute; reflexivity.
Defined.

(** X10: a request for an id under which no gig is stored is answered 404 by
    every route that takes one, once its body has passed validation, and
    writes nothing. *)
Theorem missing_gig_not_found db id user appId action msg env :
  gigs db !! id = None →
  getGig db id = (db, json 404 "Gig not found")
  ∧ startGig db id user env = (db, json 404 "Gig not found")
  ∧ completeGig db id user env = (db, json 404 "Gig not found")
  ∧ (isLength 0 500 (default "" (trim <$> msg)) = true →
     applyForGig db id user msg env = (db, json 404 "Gig not found"))
  ∧ (action ∈ ["accept"; "reject"] →
     resolveApplication db id appId user action env
     = (db, json 404 "Gig not found")).
Proof.
  intros Hg.
  assert (findById id db = None) as Hf by (unfold findById; by rewrite Hg).
  unfold getGig, startGig, completeGig, applyForGig, resolveApplication.
  rewrite Hf. repeat split.
  - intros Hm. cbn zeta. by rewrite Hm.
  - intros Ha. by rewrite bool_decide_eq_true_2.
Qed.

Lemma missing_gig_not_found_witness :
  getGig Sample.dbABC 7%N = (Sample.dbABC, json 404 "Gig not found")
  ∧ startGig Sample.dbABC 7%N Sample.workerA Sample.later
    = (Sample.dbABC, json 404 "Gig not found")
  ∧ completeGig Sample.dbABC 7%N Sample.workerA Sample.later
    = (Sample.dbABC, json 404 "Gig not found")
  ∧ (isLength 0 500 (default "" (trim <$> None)) = true →
     applyForGig Sample.dbABC 7%N Sample.workerA None Sample.later
     = (Sample.dbABC, json 404 "Gig not found"))
  ∧ ("accept" ∈ ["accept"; "reject"] →
     resolveApplication Sample.dbABC 7%N 202%N Sample.workerA "accept"
       Sample.later
     = (Sample.dbABC, json 404 "Gig not found")).
Proof.
  apply (missing_gig_not_found Sample.dbABC 7%N).
  vm_compute. reflexivity.
Defined.

(** ** Creating *)







(** X12: without a total amount in the body nothing is created: the first
    save is refused by the schema, where totalAmount is required, before
    the hook that would derive it has run.  A body that passes the
    validator chains is then answered with the generic 500. *)
Theorem create_needs_totalAmount db user body env :
  b_totalAmount body = None →
  fst (createGig db user body env) = db
  ∧ (createValidators body = true →
     snd (createGig db user body env) = json 500 "Failed to create gig").
Proof.
  intros Ht. unfold createGig.
  assert (saveGig (newGig user body env) db = None) as ->.
  { unfold saveGig, Gig.validate. cbn. rewrite Ht. cbn.
    by rewrite andb_false_r. }
  destruct (createValidators body); by split.
Qed.

Lemma create_needs_totalAmount_witness :
  fst (createGig Sample.db0 Sample.shop
         {| b_title := Some "Shelf stacking";
            b_description := Some "Stack the shelves of the shop.";
            b_category := Some "retail";
            b_address := Some "1 Main St";
            b_city := Some "Pune";
            b_state := Some "MH";
            b_pincode := Some "411001";
            b_startTime := Some 0%Z;
            b_endTime := Some Sample.threeHours;
            b_hourlyRate := Some (100 # 1);
            b_totalAmount := None;
            b_status := None;
            b_worker := None;
            b_maxApplications := None |}
         (Sample.at_ 5%Z Sample.gigId)) = Sample.db0
  ∧ snd (createGig Sample.db0 Sample.shop
           {| b_title := Some "Shelf stacking";
              b_description := Some "Stack the shelves of the shop.";
              b_category := Some "retail";
              b_address := Some "1 Main St";
              b_city := Some "Pune";
              b_state := Some "MH";
              b_pincode := Some "411001";
              b_startTime := Some 0%Z;
              b_endTime := Some Sample.threeHours;
              b_hourlyRate := Some (100 # 1);
              b_totalAmount := None;
              b_status := None;
              b_worker := None;
              b_maxApplications := None |}
           (Sample.at_ 5%Z Sample.gigId))
    = json 500 "Failed to create gig".
Proof.
  match goal with
  | |- fst (createGig ?db ?u ?b ?e) = _ ∧ _ =>
      destruct (create_needs_totalAmount db u b e eq_refl) as [H1 H2]
  end.
  split; [exact H1|]. apply H2. vm_compute. reflexivity.
Defined.

(** ** Invariants of the router *)

Lemma getGig_keeps_worker_status db id g :
  gigs db !! id = Some g → Gig._id g = id → workerMatchesStatus g →
  ∃ g', gigs (fst (getGig db id)) !! id = Some g' ∧ workerMatchesStatus g'.
Proof.
  intros Hg Hid Hinv. unfold getGig.
  rewrite (findById_lookup _ _ _ Hg).
  rewrite saveGig_settled by auto with gigdoc.
  autorewrite with gigval. cbn [Gig.val Gig.loaded].
  destruct (Gig.validate _); [|stored_unchanged g].
  eexists. split; [cbn; rewrite Hid; apply lookup_insert_eq|]. exact Hinv.
Qed.

(** X13: every route that addresses a stored gig keeps the invariant between
    its worker and its status: the worker is set exactly when the gig is
    assigned, in progress or completed. *)
Theorem requests_keep_worker_status db req env id g :
  target req = Some id →
  gigs db !! id = Some g →
  Gig._id g = id →
  workerMatchesStatus g →
  ∃ g', gigs (fst (route db req env)) !! id = Some g'
        ∧ workerMatchesStatus g'.
Proof.
  intros Ht Hg Hid Hinv. destruct req; simplify_eq/=.
  - by apply (getGig_keeps_worker_status _ _ g).
  - by apply (applyForGig_keeps_worker_status _ _ g).
  - by apply (resolveApplication_keeps_worker_status _ _ g).
  - by apply (startGig_keeps_worker_status _ _ g).
  - by apply (completeGig_keeps_worker_status _ _ g).
Qed.

Lemma requests_keep_worker_status_witness :
  ∃ g', gigs (fst (route Sample.dbABC
                     (PutApplication Sample.gigId 202%N Sample.shop "accept")
                     Sample.later)) !! Sample.gigId = Some g'
        ∧ workerMatchesStatus g'.
Proof.
  apply (requests_keep_worker_status Sample.dbABC
           (PutApplication Sample.gigId 202%N Sample.shop "accept")
           Sample.later Sample.gigId (Sample.gigOf Sample.dbABC));
    try (vm_compute; reflexivity).
  vm_compute.
  split; [intros H; by destruct H|intros [H|[H|H]]; discriminate H].
Defined.

(** X14: a request leaves every gig it does not address exactly as stored;
    creating a gig in particular never overwrites one. *)
Theorem requests_leave_other_gigs db req env id g :
  keyed db →
  target req ≠ Some id →
  gigs db !! id = Some g →
  gigs (fst (route db req env)) !! id = Some g.
Proof.
  intros Hk Ht Hg. destruct (target req) as [id0|] eqn:Ht0.
  - destruct (gigs db !! id0) as [g0|] eqn:Hg0.
    + destruct (route_stepped db req env id0 g0 Ht0 Hg0 (Hk _ _ Hg0))
        as [->|(g' & -> & _)]; [done|].
      rewrite lookup_insert_ne; [done|congruence].
    + by destruct (route_missing db req env id0 Ht0 Hg0) as [-> | ->].
  - destruct req; simplify_eq/=.
    destruct (createGig_stepped db user body env)
      as [->|(Hfree & g' & -> & _)]; [done|].
    rewrite lookup_insert_ne; [done|congruence].
Qed.

Lemma requests_leave_other_gigs_witness :
  gigs (fst (route (run Sample.db0 (take 4 script))
               (PostGig Sample.shop (Sample.body 0%Z Sample.threeHours None))
               (Sample.at_ 20%Z 101%N))) !! Sample.gigId
  = Some (Sample.gigOf (run Sample.db0 (take 4 script))).
Proof.
  apply (requests_leave_other_gigs (run Sample.db0 (take 4 script))
           (PostGig Sample.shop (Sample.body 0%Z Sample.threeHours None))
           (Sample.at_ 20%Z 101%N) Sample.gigId (Sample.gigOf (run Sample.db0 (take 4 script)))).
  - apply (run_keyed Sample.db0 (take 4 script)), keyed_empty.
  - discriminate.
  - vm_compute. reflexivity.
Defined.

(** X15: through any run of the router a stored gig stays stored, under the
    same store, with the same title, category, place, schedule, rate,
    total amount and application bound: nothing of these can be changed
    after creation, and no gig is ever removed. *)
Theorem runs_keep_gig_core db reqs id g :
  keyed db →
  gigs db !! id = Some g →
  ∃ g', gigs (run db reqs) !! id = Some g'
        ∧ Gig.store g' = Gig.store g
        ∧ Gig.title g' = Gig.title g
        ∧ Gig.category g' = Gig.category g
        ∧ Gig.location g' = Gig.location g
        ∧ Gig.startTime g' = Gig.startTime g
        ∧ Gig.endTime g' = Gig.endTime g
        ∧ Gig.duration g' = Gig.duration g
        ∧ Gig.hourlyRate g' = Gig.hourlyRate g
        ∧ Gig.totalAmount g' = Gig.totalAmount g
        ∧ Gig.maxApplications g' = Gig.maxApplications g.
Proof.
  intros Hk Hg.
  destruct (run_gigStep db reqs id g Hk Hg) as (g' & Hg' & Hc & _).
  exists g'. split; [done|]. unfold core in Hc. simplify_eq.
  by repeat split.
Qed.

Lemma runs_keep_gig_core_witness :
  ∃ g', gigs (run (run Sample.db0 (take 1 script)) (drop 1 script)) !! Sample.gigId = Some g'
        ∧ Gig.store g' = Gig.store (Sample.gigOf (run Sample.db0 (take 1 script)))
        ∧ Gig.title g' = Gig.title (Sample.gigOf (run Sample.db0 (take 1 script)))
        ∧ Gig.category g' = Gig.category (Sample.gigOf (run Sample.db0 (take 1 script)))
        ∧ Gig.location g' = Gig.location (Sample.gigOf (run Sample.db0 (take 1 script)))
        ∧ Gig.startTime g' = Gig.startTime (Sample.gigOf (run Sample.db0 (take 1 script)))
        ∧ Gig.endTime g' = Gig.endTime (Sample.gigOf (run Sample.db0 (take 1 script)))
        ∧ Gig.duration g' = Gig.duration (Sample.gigOf (run Sample.db0 (take 1 script)))
        ∧ Gig.hourlyRate g' = Gig.hourlyRate (Sample.gigOf (run Sample.db0 (take 1 script)))
        ∧ Gig.totalAmount g' = Gig.totalAmount (Sample.gigOf (run Sample.db0 (take 1 script)))
        ∧ Gig.maxApplications g'
          = Gig.maxApplications (Sample.gigOf (run Sample.db0 (take 1 script))).
Proof.
  apply (runs_keep_gig_core (run Sample.db0 (take 1 script)) (drop 1 script) Sample.gigId
           (Sample.gigOf (run Sample.db0 (take 1 script)))).
  - apply (run_keyed Sample.db0 (take 1 script)), keyed_empty.
  - vm_compute. reflexivity.
Defined.

(** X16: through any run of the router the applications of a gig are only
    ever appended to: the applications it had stay in place, with their
    id, worker, time and message; only their status can change. *)
Theorem runs_keep_applications db reqs id g :
  keyed db →
  gigs db !! id = Some g →
  ∃ g', gigs (run db reqs) !! id = Some g'
        ∧ (appIdentity <$> Gig.applications g)
            `prefix_of` (appIdentity <$> Gig.applications g').
Proof.
  intros Hk Hg.
  destruct (run_gigStep db reqs id g Hk Hg) as (g' & Hg' & _ & Hp & _).
  by exists g'.
Qed.

Lemma runs_keep_applications_witness :
  ∃ g', gigs (run (run Sample.db0 (take 3 script)) (drop 3 script)) !! Sample.gigId = Some g'
        ∧ (appIdentity <$> Gig.applications (Sample.gigOf (run Sample.db0 (take 3 script))))
            `prefix_of` (appIdentity <$> Gig.applications g').
Proof.
  apply (runs_keep_applications (run Sample.db0 (take 3 script)) (drop 3 script) Sample.gigId
           (Sample.gigOf (run Sample.db0 (take 3 script)))).
  - apply (run_keyed Sample.db0 (take 3 script)), keyed_empty.
  - vm_compute. reflexivity.
Defined.



(** X18: in every database the router builds from the empty one, every gig
    has totalAmount = hourlyRate * duration. *)
Theorem reachable_totalAmount_derived reqs id g :
  gigs (run Sample.db0 reqs) !! id = Some g →
  totalAmountDerived g.
Proof. intros Hg. by apply (run_sound Sample.db0 reqs sound_empty id g). Qed.

Lemma reachable_totalAmount_derived_witness :
  totalAmountDerived (Sample.gigOf (run Sample.db0 script)).
Proof.
  apply (reachable_totalAmount_derived script Sample.gigId).
  vm_compute. reflexivity.
Defined.

(** ** How the operations compose *)

(** X19: once an accept has succeeded, the accepted worker can start the
    gig: the start is answered 200 and stores the gig in progress, still
    assigned to that worker. *)
Theorem accepted_worker_can_start db id g appId store worker i application
    env env' :
  gigs db !! id = Some g →
  Gig._id g = id →
  Gig.validate g = true →
  Gig.store g = user_id store →
  applicationById appId (Gig.applications g) = Some (i, application) →
  user_id worker = Gig.app_worker application →
  snd (resolveApplication db id appId store "accept" env)
    = json 200 "Application accepted successfully"
  ∧ snd (startGig (fst (resolveApplication db id appId store "accept" env))
           id worker env')
    = json 200 "Gig started successfully"
  ∧ ∃ g', gigs (fst (startGig
                       (fst (resolveApplication db id appId store "accept"
                               env)) id worker env')) !! id = Some g'
          ∧ Gig.status g' = Gig.in_progress
          ∧ Gig.worker g' = Some (user_id worker)
          ∧ Gig.startedAt g' = Some (now env').
Proof.
  intros Hg Hid Hv Hstore Hfind Hw.
  rewrite (resolve_accept_found _ _ _ _ _ _ _ _ Hg Hstore Hfind).
  cbn zeta. rewrite Hv. cbn [fst snd]. split; [done|].
  rewrite (startGig_assigned _ id (acceptedGig appId i application (now env) g));
    [|cbn; rewrite Hid; apply lookup_insert_eq|done|done|cbn; by rewrite Hw|done].
  split; [done|]. eexists. split; [cbn; apply lookup_insert_eq|].
  cbn. by rewrite Hw.
Qed.

Lemma accepted_worker_can_start_witness :
  snd (resolveApplication Sample.dbABC Sample.gigId 202%N Sample.shop "accept"
         (Sample.at_ 9%Z 0%N))
    = json 200 "Application accepted successfully"
  ∧ snd (startGig
           (fst (resolveApplication Sample.dbABC Sample.gigId 202%N
                   Sample.shop "accept" (Sample.at_ 9%Z 0%N)))
           Sample.gigId Sample.workerB Sample.later)
    = json 200 "Gig started successfully"
  ∧ ∃ g', gigs (fst (startGig
                       (fst (resolveApplication Sample.dbABC Sample.gigId
                               202%N Sample.shop "accept"
                               (Sample.at_ 9%Z 0%N)))
                       Sample.gigId Sample.workerB Sample.later))
          !! Sample.gigId = Some g'
          ∧ Gig.status g' = Gig.in_progress
          ∧ Gig.worker g' = Some (user_id Sample.workerB)
          ∧ Gig.startedAt g' = Some (now Sample.later).
Proof.
  apply (accepted_worker_can_start Sample.dbABC Sample.gigId
           (Sample.gigOf Sample.dbABC) 202%N Sample.shop Sample.workerB 1
           (newApplication Sample.workerB (Some " hi ")
              (Sample.at_ 7%Z 202%N)));
    vm_compute; reflexivity.
Defined.



(** ** The list routes *)

Section QueryProperties.

Variable before : string → Gig.t → Gig.t → bool.

Lemma elem_of_find f db g :
  g ∈ find f db ↔ f g = true ∧ ∃ id, gigs db !! id = Some g.
Proof.
  unfold find. rewrite list_elem_of_filter, list_elem_of_fmap.
  rewrite Is_true_true. split.
  - intros (Hf & [id x] & -> & Hin). split; [done|]. exists id.
    by apply elem_of_map_to_list.
  - intros (Hf & id & Hg). split; [done|]. exists (id, g). split; [done|].
    by apply elem_of_map_to_list.
Qed.

Lemma sortDocs_Permutation path descending l :
  sortDocs before path descending l ≡ₚ l.
Proof. apply merge_sort_Permutation. Qed.

Lemma elem_of_listing f path descending page limit db g :
  g ∈ items (listing before f path descending page limit db) →
  f g = true ∧ ∃ id, gigs db !! id = Some g.
Proof.
  unfold listing. cbn [items]. intros Hin.
  apply subseteq_take, subseteq_drop in Hin.
  rewrite sortDocs_Permutation in Hin. by apply elem_of_find.
Qed.

Lemma optionalEq_Some p v :
  optionalEq (Some p) v = true → p ≠ "" → v = p.
Proof.
  unfold optionalEq, Gig.nonEmpty. intros H Hne.
  destruct (String.eqb_spec p ""); [done|]. cbn in H.
  by apply String.eqb_eq.
Qed.

(** X21: every gig [GET /] lists is stored and passes the filter of the
    query: it has the requested status, open when none is given, and
    the requested category and city when the query names them. *)
Theorem listGigs_only_matching db q g :
  g ∈ items (listGigs before db q) →
  (∃ id, gigs db !! id = Some g)
  ∧ statusName (Gig.status g) = default "open" (q_status q)
  ∧ (∀ c, q_category q = Some c → c ≠ "" → Gig.category g = c)
  ∧ (∀ c, q_city q = Some c → c ≠ "" → Gig.city (Gig.location g) = c).
Proof.
  intros Hin. apply elem_of_listing in Hin as (Hf & Hg).
  split; [done|]. unfold listFilter in Hf.
  apply andb_true_iff in Hf as [[Hs Hc]%andb_true_iff Hcity].
  split; [by apply String.eqb_eq|]. split.
  - intros c Hq Hne. rewrite Hq in Hc. by apply optionalEq_Some.
  - intros c Hq Hne. rewrite Hq in Hcity. by apply optionalEq_Some.
Qed.

(** X22: every gig [GET /my/gigs] lists is the caller's: a store sees gigs it
    posted, any other user gigs assigned to them, and with a status in
    the query only gigs in that status. *)
Theorem myGigs_only_own db user q g :
  g ∈ items (myGigs before db user q) →
  (∃ id, gigs db !! id = Some g)
  ∧ (userType user = "store" → Gig.store g = user_id user)
  ∧ (userType user ≠ "store" → Gig.worker g = Some (user_id user))
  ∧ (∀ s, q_status q = Some s → s ≠ "" → statusName (Gig.status g) = s).
Proof.
  intros Hin. apply elem_of_listing in Hin as (Hf & Hg).
  split; [done|]. unfold myFilter in Hf.
  apply andb_true_iff in Hf as [Hrole Hs].
  destruct (String.eqb_spec (userType user) "store") as [e|n].
  - apply bool_decide_eq_true in Hrole. repeat split; [done|done|].
    intros s Hq Hne. rewrite Hq in Hs. by apply optionalEq_Some.
  - apply bool_decide_eq_true in Hrole. repeat split; [done|done|].
    intros s Hq Hne. rewrite Hq in Hs. by apply optionalEq_Some.
Qed.

(** X23: the size of a page: the limit, or what is left of the matching gigs
    after the pages before it, which is nothing past the last page.  The
    count of the pagination block is the number of matching gigs
    whatever the page, and the number of pages is that count divided by
    the limit, rounded up. *)
Theorem listing_page_size f path descending page limit db :
  length (items (listing before f path descending page limit db))
  = min (Pos.to_nat limit)
        (countDocuments f db - (Pos.to_nat page - 1) * Pos.to_nat limit)
  ∧ count (pagination (listing before f path descending page limit db))
    = countDocuments f db
  ∧ total (pagination (listing before f path descending page limit db))
    = ceilDiv (countDocuments f db) (Pos.to_nat limit)
  ∧ ((total (pagination (listing before f path descending page limit db))
      < Pos.to_nat page)%nat →
     items (listing before f path descending page limit db) = []).
Proof.
  unfold listing, countDocuments. cbn [items pagination count total].
  assert (length (take (Pos.to_nat limit)
                    (drop ((Pos.to_nat page - 1) * Pos.to_nat limit)
                       (sortDocs before path descending (find f db))))
          = min (Pos.to_nat limit)
              (length (find f db)
               - (Pos.to_nat page - 1) * Pos.to_nat limit)) as Hlen.
  { rewrite length_take, length_drop. by rewrite sortDocs_Permutation. }
  split; [done|]. split; [done|]. split; [done|].
  intros Hpast. apply length_zero_iff_nil. rewrite Hlen.
  assert (length (find f db)
          ≤ (Pos.to_nat page - 1) * Pos.to_nat limit)%nat; [|lia].
  unfold ceilDiv in Hpast.
  assert (0 < Pos.to_nat limit)%nat as Hl by lia.
  pose proof (Nat.mul_succ_div_gt
                (length (find f db) + (Pos.to_nat limit - 1))
                (Pos.to_nat limit)). nia.
Qed.

(** X24: pagination loses nothing: every stored gig that passes the filter is
    on one of the pages, the one its rank in the sorted result falls
    on. *)
Theorem listing_covers_matches f path descending limit db id g :
  gigs db !! id = Some g →
  f g = true →
  ∃ page, g ∈ items (listing before f path descending page limit db).
Proof.
  intros Hg Hf.
  assert (g ∈ sortDocs before path descending (find f db)) as Hin.
  { rewrite sortDocs_Permutation. apply elem_of_find. eauto. }
  apply list_elem_of_lookup in Hin as [k Hk].
  assert (0 < Pos.to_nat limit)%nat as Hl by lia.
  exists (Pos.of_nat (S (k / Pos.to_nat limit))).
  unfold listing. cbn [items]. apply list_elem_of_lookup.
  exists (k mod Pos.to_nat limit).
  rewrite lookup_take_lt by (apply Nat.mod_upper_bound; lia).
  rewrite lookup_drop, Nat2Pos.id by done.
  replace ((S (k / Pos.to_nat limit) - 1) * Pos.to_nat limit
           + k mod Pos.to_nat limit) with k; [done|].
  rewrite (Nat.div_mod k (Pos.to_nat limit)) at 1 by lia. lia.
Qed.

End QueryProperties.

Lemma listGigs_only_matching_witness :
  (∃ id, gigs Sample.dbABC !! id = Some (Sample.gigOf Sample.dbABC))
  ∧ statusName (Gig.status (Sample.gigOf Sample.dbABC))
    = default "open" (q_status (plainQuery None None))
  ∧ (∀ c, q_category (plainQuery None None) = Some c → c ≠ "" →
       Gig.category (Sample.gigOf Sample.dbABC) = c)
  ∧ (∀ c, q_city (plainQuery None None) = Some c → c ≠ "" →
       Gig.city (Gig.location (Sample.gigOf Sample.dbABC)) = c).
Proof.
  apply (listGigs_only_matching byStart Sample.dbABC (plainQuery None None)).
  vm_compute. apply list_elem_of_here.
Defined.

Lemma myGigs_only_own_witness :
  (∃ id, gigs Sample.dbAssigned !! id = Some (Sample.gigOf Sample.dbAssigned))
  ∧ (userType Sample.workerB = "store" →
     Gig.store (Sample.gigOf Sample.dbAssigned) = user_id Sample.workerB)
  ∧ (userType Sample.workerB ≠ "store" →
     Gig.worker (Sample.gigOf Sample.dbAssigned)
     = Some (user_id Sample.workerB))
  ∧ (∀ s, q_status (plainQuery None None) = Some s → s ≠ "" →
       statusName (Gig.status (Sample.gigOf Sample.dbAssigned)) = s).
Proof.
  apply (myGigs_only_own byStart Sample.dbAssigned Sample.workerB
           (plainQuery None None)).
  vm_compute. apply list_elem_of_here.
Defined.

Lemma listing_covers_matches_witness :
  ∃ page,
    Sample.gigOf Sample.dbABC
    ∈ items (listing byStart (listFilter (plainQuery None None)) "createdAt"
               true page 10%positive Sample.dbABC).
Proof.
  apply (listing_covers_matches byStart (listFilter (plainQuery None None))
           "createdAt" true 10%positive Sample.dbABC Sample.gigId);
    vm_compute; reflexivity.
Defined.

Lemma listing_page_size_witness :
  length (items (listing byStart (listFilter (plainQuery None None))
                   "createdAt" true 2%positive 10%positive Sample.dbABC))
  = min (Pos.to_nat 10)
        (countDocuments (listFilter (plainQuery None None)) Sample.dbABC
         - (Pos.to_nat 2 - 1) * Pos.to_nat 10)
  ∧ count (pagination (listing byStart (listFilter (plainQuery None None))
                         "createdAt" true 2%positive 10%positive
                         Sample.dbABC))
    = countDocuments (listFilter (plainQuery None None)) Sample.dbABC
  ∧ total (pagination (listing byStart (listFilter (plainQuery None None))
                         "createdAt" true 2%positive 10%positive
                         Sample.dbABC))
    = ceilDiv (countDocuments (listFilter (plainQuery None None))
                 Sample.dbABC) (Pos.to_nat 10)
  ∧ items (listing byStart (listFilter (plainQuery None None)) "createdAt"
             true 2%positive 10%positive Sample.dbABC) = [].
Proof.
  destruct (listing_page_size byStart (listFilter (plainQuery None None))
              "createdAt" true 2%positive 10%positive Sample.dbABC)
    as (H1 & H2 & H3 & H4).
  split; [exact H1|]. split; [exact H2|]. split; [exact H3|].
  apply H4. vm_compute. lia.
Defined.

(** ** utils/helpers.js *)

Lemma hours_le (z : Z) (n : Z) :
  (0 < n)%Z →
  Qle_bool (inject_Z n) (inject_Z z / inject_Z msPerHour) = true
  ↔ (n * msPerHour ≤ z)%Z.
Proof.
  intros Hn. rewrite Qle_bool_iff. change msPerHour with 3600000%Z.
  unfold Qle, Qdiv, Qinv, Qmult, inject_Z. cbn. lia.
Qed.

Lemma hours_ge (z : Z) (n : Z) :
  Qle_bool (inject_Z z / inject_Z msPerHour) (inject_Z n) = true
  ↔ (z ≤ n * msPerHour)%Z.
Proof.
  rewrite Qle_bool_iff. change msPerHour with 3600000%Z.
  unfold Qle, Qdiv, Qinv, Qmult, inject_Z. cbn. lia.
Qed.

(** X25: [isValidGigTime] on two valid dates holds exactly when the start is
    in the future and the gig lasts between one and twenty-four hours;
    its first test, end after start, is implied by these.  An invalid
    date makes every comparison with it false: with an invalid start the
    gig time counts as valid whatever the end, with an invalid end it
    does as soon as the start is in the future. *)
Theorem isValidGigTime_spec (s e now : Z) (anyEnd : JsDate) :
  (isValidGigTime (Some s) (Some e) now = true
   ↔ (now < s ∧ msPerHour ≤ e - s ≤ 24 * msPerHour)%Z)
  ∧ isValidGigTime None anyEnd now = true
  ∧ (isValidGigTime (Some s) None now = true ↔ (now < s)%Z).
Proof.
  split; [|split].
  - unfold isValidGigTime, calculateGigDuration, dateLe, numLt, numGt.
    pose proof (hours_le (e - s) 1 eq_refl) as H1.
    pose proof (hours_ge (e - s) 24) as H24.
    change (inject_Z 1) with 1%Q in H1.
    change (inject_Z 24) with 24%Q in H24.
    destruct (Z.leb_spec e s), (Z.leb_spec s now);
      try (split; [discriminate|unfold msPerHour; lia]).
    destruct (Qle_bool 1 _) eqn:E1, (Qle_bool _ 24) eqn:E24; cbn.
    + split; [|done]. intros _. split; [done|].
      split; [by apply H1|by apply H24].
    + split; [discriminate|]. intros (_ & _ & Hc). apply H24 in Hc.
      congruence.
    + split; [discriminate|]. intros (_ & Hc & _).
      assert (1 * msPerHour ≤ e - s)%Z as Hc' by lia. apply H1 in Hc'.
      congruence.
    + split; [discriminate|]. intros (_ & _ & Hc). apply H24 in Hc.
      congruence.
  - unfold isValidGigTime, dateLe. by destruct anyEnd.
  - unfold isValidGigTime, dateLe. cbn.
    destruct (Z.leb_spec s now); split; try done; lia.
Qed.

(** X26: the page info of [formatPaginationResponse] agrees with itself:
    there is a next page exactly when the current page is before the
    last one, and a previous page exactly when it is not the first. *)
Theorem hasNext_iff_before_last page limit n :
  (hasNext (formatPaginationResponse page limit n) = true
   ↔ (pi_current (formatPaginationResponse page limit n)
      < pi_total (formatPaginationResponse page limit n))%nat)
  ∧ (hasPrev (formatPaginationResponse page limit n) = true
     ↔ (1 < pi_current (formatPaginationResponse page limit n))%nat)
  ∧ fst (getPagination page limit)
    = ((pi_current (formatPaginationResponse page limit n) - 1)
       * snd (getPagination page limit))%nat.
Proof.
  unfold formatPaginationResponse, getPagination, ceilDiv.
  cbn [hasNext hasPrev pi_current pi_total fst snd].
  assert (0 < Pos.to_nat limit)%nat as Hl by lia.
  split; [|split; [apply Nat.ltb_lt|done]].
  rewrite Nat.ltb_lt. split.
  - intros H. apply Nat.div_le_lower_bound; [lia|]. nia.
  - intros H.
    pose proof (Nat.Div0.mul_div_le (n + (Pos.to_nat limit - 1))
                  (Pos.to_nat limit)). nia.
Qed.

Lemma isDigit_keep c s :
  isDigit c = true → formatPhoneNumber (String c s) = String c (formatPhoneNumber s).
Proof. intros H. cbn. by rewrite H. Qed.

(** X27: [formatPhoneNumber] keeps the digits of its argument, in order, and
    nothing else, so that cleaning a cleaned number changes nothing. *)
Theorem formatPhoneNumber_digits s :
  Forall (λ c, isDigit c = true)
    (list_ascii_of_string (formatPhoneNumber s))
  ∧ list_ascii_of_string (formatPhoneNumber s)
    = filter (λ c, isDigit c = true) (list_ascii_of_string s)
  ∧ formatPhoneNumber (formatPhoneNumber s) = formatPhoneNumber s.
Proof.
  induction s as [|c s (IH1 & IH2 & IH3)]; [by repeat split|].
  cbn [formatPhoneNumber list_ascii_of_string]. rewrite filter_cons.
  destruct (isDigit c) eqn:Hc.
  - rewrite decide_True by done. cbn [list_ascii_of_string].
    split; [by constructor|]. split; [by rewrite IH2|].
    by rewrite isDigit_keep, IH3.
  - by rewrite decide_False by done.
Qed.

(** ** The one-time password *)

(** X28: a generated code verifies once, and only until it expires: up to
    ten minutes after generation the generated code is accepted and the
    OTP is cleared, so that the same code is refused afterwards; past
    that time it is refused as expired and the OTP is left as it is. *)
Theorem otp_verifies_once_until_expiry (now t : Z) :
  ((t ≤ now + 600000)%Z →
     Otp.verifyOTP (fst (Otp.generateOTP now)) (snd (Otp.generateOTP now)) t
     = (None, {| Otp.valid := true;
                 Otp.message := "OTP verified successfully" |})
     ∧ Otp.verifyOTP None (snd (Otp.generateOTP now)) t
       = (None, {| Otp.valid := false; Otp.message := "No OTP generated" |}))
  ∧ ((now + 600000 < t)%Z →
     Otp.verifyOTP (fst (Otp.generateOTP now)) (snd (Otp.generateOTP now)) t
     = (fst (Otp.generateOTP now),
        {| Otp.valid := false; Otp.message := "OTP expired" |})).
Proof.
  unfold Otp.generateOTP, Otp.verifyOTP.
  cbn [fst snd Otp.code Otp.expiresAt Otp.attempts].
  change (10 * 60 * 1000)%Z with 600000%Z.
  destruct (Z.ltb_spec (now + 600000) t) as [Hlt|Hge]; split; intros Ht;
    try lia; done.
Qed.

Lemma otp_verifies_once_until_expiry_witness :
  (Otp.verifyOTP (fst (Otp.generateOTP 0%Z)) (snd (Otp.generateOTP 0%Z)) 600000%Z
   = (None, {| Otp.valid := true;
               Otp.message := "OTP verified successfully" |})
   ∧ Otp.verifyOTP None (snd (Otp.generateOTP 0%Z)) 600000%Z
     = (None, {| Otp.valid := false; Otp.message := "No OTP generated" |}))
  ∧ Otp.verifyOTP (fst (Otp.generateOTP 0%Z)) (snd (Otp.generateOTP 0%Z)) 600001%Z
    = (fst (Otp.generateOTP 0%Z),
       {| Otp.valid := false; Otp.message := "OTP expired" |}).
Proof.
  destruct (otp_verifies_once_until_expiry 0%Z 600000%Z) as [H1 _].
  destruct (otp_verifies_once_until_expiry 0%Z 600001%Z) as [_ H2].
  split; [apply H1; lia | apply H2; lia].
Defined.

(** X29: a wrong code is counted, and three wrong codes lock the OTP: from
    then on even the right code is refused, and the OTP no longer
    changes until it expires. *)
Theorem otp_locks_after_three_attempts (o : Otp.t) (c1 c2 c3 c : string)
    (t1 t2 t3 t : Z) :
  Otp.code o ≠ "" →
  Otp.attempts o = 0 →
  c1 ≠ Otp.code o → c2 ≠ Otp.code o → c3 ≠ Otp.code o →
  (t1 ≤ Otp.expiresAt o)%Z → (t2 ≤ Otp.expiresAt o)%Z →
  (t3 ≤ Otp.expiresAt o)%Z → (t ≤ Otp.expiresAt o)%Z →
  ∃ o3,
    fst (Otp.verifyOTP
           (fst (Otp.verifyOTP (fst (Otp.verifyOTP (Some o) c1 t1)) c2 t2))
           c3 t3) = Some o3
    ∧ Otp.attempts o3 = 3
    ∧ Otp.code o3 = Otp.code o
    ∧ Otp.verifyOTP (Some o3) c t
      = (Some o3, {| Otp.valid := false; Otp.message := "Too many attempts" |}).
Proof.
  intros Hcode Ha H1 H2 H3 Ht1 Ht2 Ht3 Ht.
  assert (∀ x, (x ≤ Otp.expiresAt o)%Z → (Otp.expiresAt o <? x)%Z = false)
    as Hexp by (intros; apply Z.ltb_ge; lia).
  assert (∀ x, x ≠ Otp.code o → String.eqb (Otp.code o) x = false) as Hneq.
  { intros x Hx. apply String.eqb_neq. congruence. }
  assert (Gig.nonEmpty (Otp.code o) = true) as Hne.
  { unfold Gig.nonEmpty. by rewrite (proj2 (String.eqb_neq _ _) Hcode). }
  unfold Otp.verifyOTP. cbn. rewrite Hne, !Hexp, !Hneq, Ha by done. cbn.
  rewrite Hne, !Hexp, !Hneq by done. cbn.
  rewrite Hne, !Hexp, !Hneq by done. cbn.
  eexists. split; [done|]. cbn. rewrite Hne, Hexp by done. by cbn.
Qed.

Lemma otp_locks_after_three_attempts_witness :
  ∃ o3,
    fst (Otp.verifyOTP
           (fst (Otp.verifyOTP
                   (fst (Otp.verifyOTP
                           (Some {| Otp.code := "123456";
                                    Otp.expiresAt := 600000%Z;
                                    Otp.attempts := 0 |}) "000000" 1%Z))
                   "111111" 2%Z))
           "222222" 3%Z) = Some o3
    ∧ Otp.attempts o3 = 3
    ∧ Otp.code o3 = "123456"
    ∧ Otp.verifyOTP (Some o3) "123456" 4%Z
      = (Some o3, {| Otp.valid := false; Otp.message := "Too many attempts" |}).
Proof.
  apply (otp_locks_after_three_attempts
           {| Otp.code := "123456"; Otp.expiresAt := 600000%Z;
              Otp.attempts := 0 |} "000000" "111111" "222222" "123456"
           1%Z 2%Z 3%Z 4%Z);
    try discriminate; try reflexivity; cbn; lia.
Defined.

Lemma createGig_validation_error_witness :
  createGig Sample.db0 Sample.shop
    {| b_title := Some "Shelf stacking";
       b_description := Some "Stack the shelves of the shop.";
       b_category := Some "retail";
       b_address := Some "1 Main St";
       b_city := Some "Pune";
       b_state := Some "MH";
       b_pincode := Some "411001";
       b_startTime := Some 0%Z;
       b_endTime := Some Sample.threeHours;
       b_hourlyRate := Some (49 # 1);
       b_totalAmount := Some (147 # 1);
       b_status := None;
       b_worker := None;
       b_maxApplications := None |}
    (Sample.at_ 5%Z Sample.gigId)
  = (Sample.db0, json 400 "Validation errors")
  ∧ outcome
      (snd (createGig Sample.db0 Sample.shop
              {| b_title := Some "Shelf stacking";
                 b_description := Some "Stack the shelves of the shop.";
                 b_category := Some "retail";
                 b_address := Some "1 Main St";
                 b_city := Some "Pune";
                 b_state := Some "MH";
                 b_pincode := Some "411001";
                 b_startTime := Some 0%Z;
                 b_endTime := Some Sample.threeHours;
                 b_hourlyRate := Some (49 # 1);
                 b_totalAmount := Some (147 # 1);
                 b_status := None;
                 b_worker := None;
                 b_maxApplications := None |}
              (Sample.at_ 5%Z Sample.gigId)))
    = ValidationError.
Proof.
  apply createGig_validation_error. do 7 right. left.
  intros r [= <-]. reflexivity.
Defined.
